(** * Question search (main.go): text normalizer, relevance scorer,
      result ranker and category index.

    Go strings are byte sequences, so they are modelled as [list byte]; the
    functions of Go's [strings], [unicode] and [utf8] packages that the
    program calls are modelled on bytes, with UTF-8 written out where the
    library decodes runes.

    The float64 relevance scores are modelled twice.  [calculateRelevance]
    computes them as exact rationals: every score the program produces is a
    decimal literal of the source or the value of the token-overlap formula,
    and the statements on the order of scores and on the threshold are made
    on these.  [calculateRelevance64] computes them in binary64, literal by
    literal and operation by operation; the value of the token-overlap
    formula is stated on it (in float64, 0.7 + 0.1 is 0.7999999999999999,
    not the literal 0.8). *)

From Stdlib Require Import Floats.PrimFloat.
From Stdlib Require Uint63.
From Stdlib Require Import List ZArith QArith Bool Lia Lqa Permutation Sorted.
From Stdlib Require Strings.String.
Import Strings.String.StringSyntax.
Delimit Scope string_scope with string.
From Stdlib Require Import Strings.Byte.
Import ListNotations.

Close Scope Q_scope.

(** The decimal literals of the source are read as the nearest binary64
    values, as Go reads them. *)
Set Warnings "-inexact-float".

(** ** Go strings and the library functions the program calls *)

Module GoString.

Definition gostring : Type := list byte.

(** A string literal of the source, as its UTF-8 bytes. *)
Definition go (s : String.string) : gostring :=
  String.list_byte_of_string s.

Arguments go s%_string.

(** [s == t] on Go strings. *)
Fixpoint eqb (s t : gostring) : bool :=
  match s, t with
  | [], [] => true
  | a :: s', b :: t' => Byte.eqb a b && eqb s' t'
  | _, _ => false
  end.

(** [strings.HasPrefix]:
    [len(s) >= len(prefix) && s[:len(prefix)] == prefix]. *)
Definition HasPrefix (s prefix : gostring) : bool :=
  (length prefix <=? length s)%nat && eqb (firstn (length prefix) s) prefix.

(** [strings.Index]: byte index of the first occurrence of [substr] in [s],
    or -1. *)
Fixpoint Index (s substr : gostring) : Z :=
  if HasPrefix s substr then 0%Z
  else match s with
       | [] => (-1)%Z
       | _ :: s' =>
           let i := Index s' substr in
           if (i <? 0)%Z then (-1)%Z else (i + 1)%Z
       end.

(** [strings.Contains]: [Index(s, substr) >= 0]. *)
Definition Contains (s substr : gostring) : bool :=
  (0 <=? Index s substr)%Z.

(** [strings.ReplaceAll(s, old, new)] for a non-empty [old]: the
    non-overlapping occurrences of [old], found from left to right, are
    replaced.  [skip] counts the bytes of a matched occurrence still to be
    passed over. *)
Fixpoint replaceFrom (old new : gostring) (skip : nat) (s : gostring)
  : gostring :=
  match s with
  | [] => []
  | b :: s' =>
      match skip with
      | S k => replaceFrom old new k s'
      | O =>
          if HasPrefix s old
          then new ++ replaceFrom old new (length old - 1) s'
          else b :: replaceFrom old new 0 s'
      end
  end.

Definition ReplaceAll (s old new : gostring) : gostring :=
  replaceFrom old new 0 s.

(** Runes are Go's [int32] code points. *)
Definition rune : Type := Z.

Definition rune_of_byte (b : byte) : rune := Z.of_N (Byte.to_N b).

Definition byte_of_Z (z : Z) : byte :=
  match Byte.of_N (Z.to_N (z mod 256)) with
  | Some b => b
  | None => x00
  end.

(** [utf8.EncodeRune]. Surrogates and values above [MaxRune] are encoded as
    [RuneError] (U+FFFD). *)
Definition EncodeRune (r : rune) : gostring :=
  let enc3 (c : Z) :=
    [byte_of_Z (Z.lor 224 (Z.shiftr c 12));
     byte_of_Z (Z.lor 128 (Z.land (Z.shiftr c 6) 63));
     byte_of_Z (Z.lor 128 (Z.land c 63))] in
  if ((0 <=? r) && (r <=? 127))%Z then [byte_of_Z r]
  else if ((0 <=? r) && (r <=? 2047))%Z then
    [byte_of_Z (Z.lor 192 (Z.shiftr r 6));
     byte_of_Z (Z.lor 128 (Z.land r 63))]
  else if ((r <? 0) || (1114111 <? r) || ((55296 <=? r) && (r <=? 57343)))%Z
  then enc3 65533%Z
  else if (r <=? 65535)%Z then enc3 r
  else
    [byte_of_Z (Z.lor 240 (Z.shiftr r 18));
     byte_of_Z (Z.lor 128 (Z.land (Z.shiftr r 12) 63));
     byte_of_Z (Z.lor 128 (Z.land (Z.shiftr r 6) 63));
     byte_of_Z (Z.lor 128 (Z.land r 63))].

(** The code points of [unicode.White_Space], the set [unicode.IsSpace]
    tests: U+0009..U+000D, U+0020, U+0085, U+00A0, U+1680, U+2000..U+200A,
    U+2028, U+2029, U+202F, U+205F, U+3000. *)
Definition White_Space : list rune :=
  [9; 10; 11; 12; 13; 32; 133; 160; 5760;
   8192; 8193; 8194; 8195; 8196; 8197; 8198; 8199; 8200; 8201; 8202;
   8232; 8233; 8239; 8287; 12288]%Z.

Definition IsSpace (r : rune) : bool := existsb (Z.eqb r) White_Space.

(** [unicode.IsPunct] on the Latin-1 range, where Go reads its [properties]
    table (category P).  The program only calls it on [rune(b)] for a byte
    [b]; above U+00FF Go consults the range table [unicode.P], which is not
    modelled, and [IsPunct] is not Go's function there. *)
Definition Latin1_Punct : list rune :=
  [33; 34; 35; 37; 38; 39; 40; 41; 42; 44; 45; 46; 47; 58; 59; 63; 64;
   91; 92; 93; 95; 123; 125; 161; 167; 171; 182; 183; 187; 191]%Z.

Definition IsPunct (r : rune) : bool := existsb (Z.eqb r) Latin1_Punct.

(** The UTF-8 encodings of the white-space runes.  A string starts (ends)
    with a white-space rune, as [utf8.DecodeRuneInString]
    ([DecodeLastRuneInString]) reads it, exactly when it starts (ends) with
    one of these byte sequences: the decoder accepts shortest encodings only,
    and a lead byte never occurs inside a well-formed sequence. *)
Definition spaceEncodings : list gostring := map EncodeRune White_Space.

(** The remainder of [s] after the first of [pats] that is a prefix of it. *)
Fixpoint stripOne (pats : list gostring) (s : gostring) : option gostring :=
  match pats with
  | [] => None
  | p :: pats' =>
      if HasPrefix s p then Some (skipn (length p) s) else stripOne pats' s
  end.

Fixpoint stripAll (pats : list gostring) (fuel : nat) (s : gostring)
  : gostring :=
  match fuel with
  | O => s
  | S fuel' =>
      match stripOne pats s with
      | Some s' => stripAll pats fuel' s'
      | None => s
      end
  end.

(** [strings.TrimLeftFunc(s, unicode.IsSpace)]. *)
Definition TrimLeft (s : gostring) : gostring :=
  stripAll spaceEncodings (length s) s.

(** [strings.TrimRightFunc(s, unicode.IsSpace)]. *)
Definition TrimRight (s : gostring) : gostring :=
  rev (stripAll (map (@rev byte) spaceEncodings) (length s) (rev s)).

(** [strings.TrimSpace]: leading and trailing white space removed, as
    defined by Unicode. *)
Definition TrimSpace (s : gostring) : gostring := TrimRight (TrimLeft s).

(** [strings.Fields]: the maximal runs of bytes between white-space runes.
    [cur] is the field being read, [skip] the bytes of a white-space rune
    still to be passed over. *)
Definition flush (cur : gostring) : list gostring :=
  match cur with [] => [] | _ => [cur] end.

Definition spaceWidth (s : gostring) : nat :=
  match stripOne spaceEncodings s with
  | Some s' => length s - length s'
  | None => 0
  end.

Fixpoint fieldsFrom (skip : nat) (cur : gostring) (s : gostring)
  : list gostring :=
  match s with
  | [] => flush cur
  | b :: s' =>
      match skip with
      | S k => fieldsFrom k cur s'
      | O =>
          match spaceWidth s with
          | S k => flush cur ++ fieldsFrom k [] s'
          | O => fieldsFrom 0 (cur ++ [b]) s'
          end
      end
  end.

Definition Fields (s : gostring) : list gostring := fieldsFrom 0 [] s.

(** The ASCII fast path of [strings.ToLower]: it is the whole function on
    strings without bytes above 0x7F, and on well-formed UTF-8 whose
    non-ASCII runes have no lower-case mapping (CJK text, for one). *)
Definition lowerByte (b : byte) : byte :=
  let n := rune_of_byte b in
  if ((65 <=? n) && (n <=? 90))%Z then byte_of_Z (n + 32) else b.

Definition lowerASCII (s : gostring) : gostring := map lowerByte s.

End GoString.

Import GoString.

(** ** Library functions kept abstract *)

(** [strings.ToLower] needs Unicode's case tables, [strconv.FormatFloat] the
    shortest-decimal printer, and [sort.Slice] is documented as a sort that is
    not guaranteed to be stable.  The program is modelled over any such
    functions; [goSmall] below runs it. *)
Class GoLib : Type := {
  ToLower : gostring -> gostring;
  FormatFloat : Q -> gostring;
  Itoa : Z -> gostring;
  sort_Slice : forall A : Type, (A -> A -> bool) -> list A -> list A
}.

Arguments sort_Slice {_} {A} less x.

(** [sort.Slice]'s contract: [less] has to be a strict weak ordering
    ("transitive ordering" in the documentation of [sort.Interface]); the
    result is then a rearrangement in which no element is [less] than an
    earlier one. *)
Record strict_weak {A : Type} (less : A -> A -> bool) : Prop := {
  sw_irrefl : forall x, less x x = false;
  sw_trans : forall x y z, less x y = true -> less y z = true ->
                           less x z = true;
  sw_negtrans : forall x y z, less x y = false -> less y z = false ->
                              less x z = false
}.

Definition sorted_by {A : Type} (less : A -> A -> bool) : list A -> Prop :=
  StronglySorted (fun x y => less y x = false).

Record SortContract (go : GoLib) : Prop := {
  sort_perm : forall (A : Type) (less : A -> A -> bool) (l : list A),
      Permutation l (sort_Slice less l);
  sort_sorted : forall (A : Type) (less : A -> A -> bool) (l : list A),
      strict_weak less -> sorted_by less (sort_Slice less l)
}.

(** [insertionSort_func] of Go's [sort] package, which is all [sort.Slice]
    runs on a short slice (up to 12 elements since Go 1.19, up to 6 before):
    [for i := a+1; i < b; i++ { for j := i; j > a && less(j, j-1); j-- { swap(j, j-1) } }].
    [rpre] is the part of the slice before index [i], last element first;
    [insertLeft] moves [data[i]] to the left past every element it is less
    than. *)
Fixpoint insertLeft {A : Type} (less : A -> A -> bool) (x : A)
    (rpre : list A) : list A :=
  match rpre with
  | y :: r => if less x y then y :: insertLeft less x r else x :: rpre
  | [] => [x]
  end.

Definition insertionSort {A : Type} (less : A -> A -> bool) (l : list A)
  : list A :=
  rev (fold_left (fun rpre x => insertLeft less x rpre) l []).

(** The instance the examples are run with.  Their strings are ASCII or
    caseless CJK text, where [lowerASCII] is [strings.ToLower]; their
    categories hold at most three records, where [insertionSort] is
    [sort.Slice]; and their records hold string scores, so that the number
    printers are not reached. *)
Definition goSmall : GoLib := {|
  ToLower := lowerASCII;
  FormatFloat := fun _ => go "0";
  Itoa := fun _ => go "0";
  sort_Slice := @insertionSort
|}.

(** ** Data model *)

Module Choice.
Record t : Type := {
  Operator : gostring;
  Title : gostring;
  IsCorrect : bool;
  IsChecked : bool
}.
End Choice.

(** A decoded JSON scalar held in an [interface{}]. *)
Inductive scalar : Type :=
| VString (v : gostring)
| VFloat64 (v : Q)
| VInt (v : Z)
| VOther.

Module QuestionItem.
(** The fields of [QuestionItem] the program reads. *)
Record t : Type := {
  UUID : gostring;
  Type_ : gostring;
  Title : gostring;
  Score : scalar;
  ShowAnswer : gostring;
  Choices : list Choice.t;
  Difficulty : gostring
}.
End QuestionItem.

Module QuestionCategory.
Record t : Type := {
  TypeName : gostring;
  Questions : list QuestionItem.t
}.
End QuestionCategory.

Module SearchConfig.
Record t : Type := {
  Keyword : gostring;
  Type_ : gostring
}.
End SearchConfig.

Module Result.
Record t : Type := {
  Title : gostring;
  Info : gostring;
  Operator : list gostring;
  Relevance : Q;
  Type_ : gostring
}.
End Result.

(** What a call of a Go function comes to: a value with a nil error, a
    non-nil error, or a run-time panic. *)
Inductive outcome (A : Type) : Type :=
| Returned (a : A)
| Failed (err : gostring)
| Panicked.

Arguments Returned {A} a.
Arguments Failed {A} err.
Arguments Panicked {A}.

(** What [readFile] comes to: the map of questions, or the end of the
    process ([log.Fatal]). *)
Inductive loaded : Type :=
| Loaded (allQuestions : list (gostring * QuestionItem.t))
| Exited.

Module TemplateData.
Record t : Type := {
  Results : list Result.t;
  Keyword : gostring;
  SelectedType : gostring;
  ResultCount : Z;
  SearchPerformed : bool;
  Message : gostring;
  MessageType : gostring
}.
End TemplateData.

(** What a handler reads of an [*http.Request]: the method, the path, the
    error [r.ParseForm()] returns, if any, and the form values. *)
Module Request.
Record t : Type := {
  Method : gostring;
  Path : gostring;
  ParseForm : option gostring;
  FormValue : gostring -> gostring
}.
End Request.

(** What a handler finds on the machine: the questions in [./RawFile.txt],
    the error [template.ParseFiles("./root.html")] returns, if any, and the
    error [tmpl.Execute] returns on given data, if any. *)
Module Site.
Record t : Type := {
  allQuestions : list (gostring * QuestionItem.t);
  ParseFiles : option gostring;
  Execute : TemplateData.t -> option gostring
}.
End Site.

(** What a handler does to its [http.ResponseWriter]: [http.Redirect],
    [http.Error], the execution of the template on some data (followed by
    [http.Error] with the given text when the execution fails), or a panic
    that leaves the handler. *)
Inductive response : Type :=
| Redirect (url : gostring) (code : Z)
| Error (text : gostring) (code : Z)
| Page (data : TemplateData.t) (failure : option gostring)
| Crash.

(** What a handler finds on the machine when the file itself is looked at:
    what [ioutil.ReadFile("./RawFile.txt")] returns ([None] for an error),
    what [json.Unmarshal] makes of a line (the entries of [Data.Items], or
    [None] for an error), and the template as in [Site]. *)
Module Machine.
Record t : Type := {
  RawFile : option gostring;
  Unmarshal : gostring -> option (list (gostring * QuestionItem.t));
  ParseFiles : option gostring;
  Execute : TemplateData.t -> option gostring
}.
End Machine.

(** What a call that reads the file comes to: the process ends in
    [readFile] ([log.Fatal], exit status 1), or the call goes on to an
    outcome of its own. *)
Inductive run (A : Type) : Type :=
| ProcessExit
| Done (a : A).

Arguments ProcessExit {A}.
Arguments Done {A} a.

(** A Go [map[string]V] as the list of its entries, keys distinct. *)
Definition gomap (V : Type) : Type := list (gostring * V).

Fixpoint lookup {V : Type} (k : gostring) (m : gomap V) : option V :=
  match m with
  | [] => None
  | (k', v) :: m' => if eqb k' k then Some v else lookup k m'
  end.

(** [m[k] = v]. *)
Fixpoint assign {V : Type} (k : gostring) (v : V) (m : gomap V) : gomap V :=
  match m with
  | [] => [(k, v)]
  | (k', v') :: m' =>
      if eqb k' k then (k', v) :: m' else (k', v') :: assign k v m'
  end.

(** ** The program *)

Definition getQuestionTypeName (qType : gostring) : gostring :=
  if eqb qType (go "single_choice") then go "单选题"
  else if eqb qType (go "choice") then go "多选题"
  else if eqb qType (go "determine") then go "判断题"
  else qType.

Definition getDifficultyName (difficulty : gostring) : gostring :=
  if eqb difficulty (go "simple") then go "简单"
  else if eqb difficulty (go "normal") then go "中等"
  else if eqb difficulty (go "difficulty") then go "困难"
  else if eqb difficulty (go "quite_difficulty") then go "较难"
  else difficulty.

(** The literal substrings [cleanText] removes, in the order of its
    [ReplaceAll] calls. *)
Definition noise : list gostring :=
  [go "<p>"; go "</p>"; go "&ldquo"; go "&rdquo"; go "&ge"; go "&rsquo";
   go "&nbsp"].

Definition cleanText (text : gostring) : gostring :=
  let text := ReplaceAll text (go "<p>") [] in
  let text := ReplaceAll text (go "</p>") [] in
  let text := ReplaceAll text (go "&ldquo") [] in
  let text := ReplaceAll text (go "&rdquo") [] in
  let text := ReplaceAll text (go "&ge") [] in
  let text := ReplaceAll text (go "&rsquo") [] in
  let text := ReplaceAll text (go "&nbsp") [] in
  let text := TrimSpace text in
  text.

(** The second loop of [getQuestionCategories]: one record is filed under the
    display name of its type; the bucket is created on its first record. *)
Definition fileQuestion (questionCategories : gomap QuestionCategory.t)
    (question : QuestionItem.t) : gomap QuestionCategory.t :=
  let typeName := getQuestionTypeName (QuestionItem.Type_ question) in
  let questionCategories :=
    match lookup typeName questionCategories with
    | None =>
        assign typeName
          {| QuestionCategory.TypeName := typeName;
             QuestionCategory.Questions := [] |}
          questionCategories
    | Some _ => questionCategories
    end in
  match lookup typeName questionCategories with
  | Some c =>
      assign typeName
        {| QuestionCategory.TypeName := QuestionCategory.TypeName c;
           QuestionCategory.Questions :=
             QuestionCategory.Questions c ++ [question] |}
        questionCategories
  | None => questionCategories
  end.

(** [allQuestions] holds the entries of the map [readFile] returns, in the
    order the [range] over it visits them in this call: Go leaves that order
    unspecified, and it may differ from one call to the next. *)
Definition getQuestionCategories (allQuestions : gomap QuestionItem.t)
  : gomap QuestionCategory.t :=
  let questionsSlice := map snd allQuestions in
  fold_left fileQuestion questionsSlice [].

(** [strings.Split(s, sep)] for a non-empty [sep]: the pieces between the
    non-overlapping occurrences of [sep], found from left to right.  [cur] is
    the piece being read, [skip] the bytes of a matched separator still to
    be passed over. *)
Fixpoint splitFrom (sep : gostring) (skip : nat) (cur : gostring)
    (s : gostring) : list gostring :=
  match s with
  | [] => [cur]
  | b :: s' =>
      match skip with
      | S k => splitFrom sep k cur s'
      | O =>
          if HasPrefix s sep
          then cur :: splitFrom sep (length sep - 1) [] s'
          else splitFrom sep 0 (cur ++ [b]) s'
      end
  end.

Definition Split (s sep : gostring) : list gostring := splitFrom sep 0 [] s.

(** The innermost loop of [readFile]: an item is stored under its uuid
    unless the map already holds one there. *)
Definition mergeItem (allQuestions : gomap QuestionItem.t)
    (entry : gostring * QuestionItem.t) : gomap QuestionItem.t :=
  let (uuid, item) := entry in
  match lookup uuid allQuestions with
  | Some _ => allQuestions
  | None => assign uuid item allQuestions
  end.

(** One decoded line: [items] holds the entries of [examResponse.Data.Items]
    in the order the [range] visits them. *)
Definition mergeLine (allQuestions items : gomap QuestionItem.t)
  : gomap QuestionItem.t :=
  fold_left mergeItem items allQuestions.

(** The loop of [readFile] over the lines.  [Unmarshal] stands for
    [json.Unmarshal] into an [ExamResponse], followed by the reading of
    [Data.Items]: [None] when the line does not decode, which ends the
    process. *)
Fixpoint readLines (Unmarshal : gostring -> option (gomap QuestionItem.t))
    (lines : list gostring) (allQuestions : gomap QuestionItem.t) : loaded :=
  match lines with
  | [] => Loaded allQuestions
  | line :: rest =>
      match TrimSpace line with
      | [] => readLines Unmarshal rest allQuestions
      | _ =>
          match Unmarshal line with
          | None => Exited
          | Some items =>
              readLines Unmarshal rest (mergeLine allQuestions items)
          end
      end
  end.

(** [content] is what [ioutil.ReadFile] returns: [None] for an error, which
    ends the process. *)
Definition readFile (Unmarshal : gostring -> option (gomap QuestionItem.t))
    (content : option gostring) : loaded :=
  match content with
  | None => Exited
  | Some content => readLines Unmarshal (Split content [x0a]) []
  end.

(** The inner loop of the token tier: the first word of the question that is
    the keyword word, or contains it, decides. *)
Inductive wordMatch : Type := ExactWord | PartialWord | NoWord.

Fixpoint findWord (kw : gostring) (questionWords : list gostring)
  : wordMatch :=
  match questionWords with
  | [] => NoWord
  | qw :: rest =>
      if eqb qw kw then ExactWord
      else if Contains qw kw then PartialWord
      else findWord kw rest
  end.

(** The outer loop, with the counters [matchedWords] and
    [exactWordMatches]; [None] is the early [return 0.3]. *)
Fixpoint countWords (keywordWords questionWords : list gostring)
    (matchedWords exactWordMatches : Z) : option (Z * Z) :=
  match keywordWords with
  | [] => Some (matchedWords, exactWordMatches)
  | kw :: rest =>
      match findWord kw questionWords with
      | ExactWord =>
          countWords rest questionWords matchedWords (exactWordMatches + 1)
      | PartialWord =>
          countWords rest questionWords (matchedWords + 1) exactWordMatches
      | NoWord => None
      end
  end.

(** [float64(n)] on an [int] counter.  The conversion is exact below 2^53,
    and a counter is at most the number of words of the keyword. *)
Definition float64 (n : Z) : float := PrimFloat.of_uint63 (Uint63.of_Z n).

(** [a > b] on scores; [a == b] is [Qeq_bool]. *)
Definition Qgtb (a b : Q) : bool :=
  (Qnum b * QDen a <? Qnum a * QDen b)%Z.

(** The comparator handed to [sort.Slice]; [len] is the length in bytes. *)
Definition less (a b : Result.t) : bool :=
  if Qeq_bool (Result.Relevance a) (Result.Relevance b)
  then (length (Result.Title a) <? length (Result.Title b))%nat
  else Qgtb (Result.Relevance a) (Result.Relevance b).

Definition setRelevance (r : Result.t) (v : Q) : Result.t :=
  {| Result.Title := Result.Title r;
     Result.Info := Result.Info r;
     Result.Operator := Result.Operator r;
     Result.Relevance := v;
     Result.Type_ := Result.Type_ r |}.

Section Program.

Context {golib : GoLib}.

Definition getScore (score : scalar) : gostring :=
  match score with
  | VString v => v
  | VFloat64 v => FormatFloat v
  | VInt v => Itoa v
  | VOther => go "0"
  end.

Definition calculateRelevance (question keyword : gostring) : Q :=
  match keyword with
  | [] => 1.0%Q
  | _ =>
      let questionLower := ToLower question in
      let keywordLower := ToLower keyword in
      if eqb questionLower keywordLower then 1.0%Q
      else if HasPrefix questionLower keywordLower then 0.95%Q
      else if Contains questionLower keywordLower then
        let index := Index questionLower keywordLower in
        let prevChar :=
          rune_of_byte (nth (Z.to_nat (index - 1)) questionLower x00) in
        if (0 <? index)%Z && (IsSpace prevChar || IsPunct prevChar)
        then 0.9%Q
        else 0.8%Q
      else
        let keywordWords := Fields keywordLower in
        let questionWords := Fields questionLower in
        match keywordWords with
        | [] => 0%Q
        | _ =>
            match countWords keywordWords questionWords 0 0 with
            | None => 0.3%Q
            | Some (matchedWords, exactWordMatches) =>
                let baseScore :=
                  (inject_Z (matchedWords + exactWordMatches)
                   / inject_Z (Z.of_nat (length keywordWords)))%Q in
                let exactBonus := (inject_Z exactWordMatches * 0.1)%Q in
                (baseScore * 0.7 + exactBonus)%Q
            end
        end
  end.

(** [calculateRelevance] with the arithmetic of float64: a literal is the
    binary64 value nearest to it, and the division, the two
    multiplications and the addition of the last lines each round to
    nearest, which is what the compiler emits for amd64.  (The language
    lets a compiler fuse [x*y + z] into one rounding, and Go's does on
    some architectures, arm64 among them, where the last bit of a token
    score may differ.) *)
Definition calculateRelevance64 (question keyword : gostring) : float :=
  match keyword with
  | [] => 1.0%float
  | _ =>
      let questionLower := ToLower question in
      let keywordLower := ToLower keyword in
      if eqb questionLower keywordLower then 1.0%float
      else if HasPrefix questionLower keywordLower then 0.95%float
      else if Contains questionLower keywordLower then
        let index := Index questionLower keywordLower in
        let prevChar :=
          rune_of_byte (nth (Z.to_nat (index - 1)) questionLower x00) in
        if (0 <? index)%Z && (IsSpace prevChar || IsPunct prevChar)
        then 0.9%float
        else 0.8%float
      else
        let keywordWords := Fields keywordLower in
        let questionWords := Fields questionLower in
        match keywordWords with
        | [] => 0%float
        | _ =>
            match countWords keywordWords questionWords 0 0 with
            | None => 0.3%float
            | Some (matchedWords, exactWordMatches) =>
                let baseScore :=
                  (float64 (matchedWords + exactWordMatches)
                   / float64 (Z.of_nat (length keywordWords)))%float in
                let exactBonus := (float64 exactWordMatches * 0.1)%float in
                (baseScore * 0.7 + exactBonus)%float
            end
        end
  end.

(** One line of [res.Operator]: [fmt.Sprintf("  %s. %s%s\n", ...)]. *)
Definition choiceLine (choice : Choice.t) : gostring :=
  let correctMark :=
    if Choice.IsCorrect choice then go " ✓" else [] in
  go "  " ++ Choice.Operator choice ++ go ". "
    ++ cleanText (Choice.Title choice) ++ correctMark ++ [x0a].

(** The body of the first loop of [searchQuestions]. *)
Definition makeResult (config : SearchConfig.t) (question : QuestionItem.t)
  : Result.t :=
  {| Result.Title := go " " ++ cleanText (QuestionItem.Title question) ++ [x0a];
     Result.Info :=
       go " 难度: " ++ getDifficultyName (QuestionItem.Difficulty question)
         ++ go " | 分值: " ++ getScore (QuestionItem.Score question)
         ++ go " | 正确答案: " ++ QuestionItem.ShowAnswer question ++ [x0a];
     Result.Operator := map choiceLine (QuestionItem.Choices question);
     Result.Relevance := 0%Q;
     Result.Type_ := getQuestionTypeName (SearchConfig.Type_ config) |}.

(** The second loop: every result is scored on its own [Title]. *)
Definition scoreAll (keyword : gostring) (allQuestions : list Result.t)
  : list Result.t :=
  map (fun r => setRelevance r (calculateRelevance (Result.Title r) keyword))
      allQuestions.

(** The threshold and the cap. *)
Definition filterAndCap (sorted : list Result.t) : list Result.t :=
  let filtered := filter (fun q => Qgtb (Result.Relevance q) 0.5%Q) sorted in
  if (20 <? length filtered)%nat then firstn 20 filtered else filtered.

(** The [switch] on [config.Type]: [None] is the [default] branch, [Some None]
    a recognized type whose bucket is not in the map, which leaves [category]
    nil. *)
Definition selectCategory (config : SearchConfig.t)
    (questionCategories : gomap QuestionCategory.t)
  : option (option QuestionCategory.t) :=
  if eqb (SearchConfig.Type_ config) (go "single_choice")
  then Some (lookup (go "单选题") questionCategories)
  else if eqb (SearchConfig.Type_ config) (go "choice")
  then Some (lookup (go "多选题") questionCategories)
  else if eqb (SearchConfig.Type_ config) (go "determine")
  then Some (lookup (go "判断题") questionCategories)
  else None.

(** Scoring and sorting of one category's records. *)
Definition rankCategory (config : SearchConfig.t)
    (category : QuestionCategory.t) : list Result.t :=
  let allQuestions :=
    map (makeResult config) (QuestionCategory.Questions category) in
  let allQuestions := scoreAll (SearchConfig.Keyword config) allQuestions in
  sort_Slice less allQuestions.

Definition searchQuestions (allQuestions : gomap QuestionItem.t)
    (config : SearchConfig.t) : outcome (list Result.t) :=
  let questionCategories := getQuestionCategories allQuestions in
  match selectCategory config questionCategories with
  | None => Failed (go "无效的题型选择")
  | Some None => Panicked
  | Some (Some category) =>
      let allQuestions := rankCategory config category in
      match SearchConfig.Keyword config with
      | [] => Returned allQuestions
      | _ => Returned (filterAndCap allQuestions)
      end
  end.

(** The steps every handler ends with: parse [./root.html], execute it. *)
Definition executeTemplate (site : Site.t) (data : TemplateData.t)
  : response :=
  match Site.ParseFiles site with
  | Some err => Error (go "模板解析错误: " ++ err) 500
  | None =>
      Page data
        (option_map (fun err => go "模板渲染错误: " ++ err)
           (Site.Execute site data))
  end.

Definition handleIndex (site : Site.t) (r : Request.t) : response :=
  executeTemplate site
    {| TemplateData.Results := [];
       TemplateData.Keyword := [];
       TemplateData.SelectedType := go "single_choice";
       TemplateData.ResultCount := 0;
       TemplateData.SearchPerformed := false;
       TemplateData.Message := [];
       TemplateData.MessageType := [] |}.

Definition handleSearch (site : Site.t) (r : Request.t) : response :=
  if negb (eqb (Request.Method r) (go "POST"))
  then Redirect (go "/") 303
  else
    match Request.ParseForm r with
    | Some err => Error (go "表单解析错误: " ++ err) 400
    | None =>
        let config :=
          {| SearchConfig.Keyword :=
               TrimSpace (Request.FormValue r (go "keyword"));
             SearchConfig.Type_ := Request.FormValue r (go "question_type") |}
        in
        match SearchConfig.Type_ config with
        | [] =>
            executeTemplate site
              {| TemplateData.Results := [];
                 TemplateData.Keyword := SearchConfig.Keyword config;
                 TemplateData.SelectedType := go "single_choice";
                 TemplateData.ResultCount := 0;
                 TemplateData.SearchPerformed := false;
                 TemplateData.Message := go "⚠️ 请选择一种题型！";
                 TemplateData.MessageType := go "warning" |}
        | _ =>
            match searchQuestions (Site.allQuestions site) config with
            | Failed err => Error (go "搜索错误: " ++ err) 500
            | Panicked => Crash
            | Returned questions =>
                let count := Z.of_nat (length questions) in
                executeTemplate site
                  {| TemplateData.Results := questions;
                     TemplateData.Keyword := SearchConfig.Keyword config;
                     TemplateData.SelectedType := SearchConfig.Type_ config;
                     TemplateData.ResultCount := count;
                     TemplateData.SearchPerformed := true;
                     TemplateData.Message :=
                       match questions with
                       | [] => go "🔍 没有找到相关题目，请尝试其他关键词"
                       | _ =>
                           go "✅ 搜索完成！找到 " ++ Itoa count
                             ++ go " 条相关题目"
                       end;
                     TemplateData.MessageType :=
                       match questions with
                       | [] => go "warning"
                       | _ => go "success"
                       end |}
            end
        end
    end.

(** [searchQuestions] from its first statement: [getQuestionCategories()]
    starts with [readFile()], so the file is read, and the process may end
    there, before the [switch] looks at the type.  The loaded entries are
    visited in the order they were stored, one of the orders the [range]
    may take. *)
Definition searchQuestionsFromFile (machine : Machine.t)
    (config : SearchConfig.t) : run (outcome (list Result.t)) :=
  match readFile (Machine.Unmarshal machine) (Machine.RawFile machine) with
  | Exited => ProcessExit
  | Loaded allQuestions => Done (searchQuestions allQuestions config)
  end.

(** The site a machine makes with the questions that were loaded;
    [executeTemplate] reads the template of a site only. *)
Definition siteWith (machine : Machine.t) (allQuestions : gomap QuestionItem.t)
  : Site.t :=
  {| Site.allQuestions := allQuestions;
     Site.ParseFiles := Machine.ParseFiles machine;
     Site.Execute := Machine.Execute machine |}.

(** [handleSearch] with the file read where the code reads it: in the call
    of [searchQuestions], which the handler reaches on a POST whose form
    parses and names a type. *)
Definition handleSearchFromFile (machine : Machine.t) (r : Request.t)
  : run response :=
  if negb (eqb (Request.Method r) (go "POST"))
  then Done (Redirect (go "/") 303)
  else
    match Request.ParseForm r with
    | Some err => Done (Error (go "表单解析错误: " ++ err) 400)
    | None =>
        let config :=
          {| SearchConfig.Keyword :=
               TrimSpace (Request.FormValue r (go "keyword"));
             SearchConfig.Type_ := Request.FormValue r (go "question_type") |}
        in
        match SearchConfig.Type_ config with
        | [] =>
            Done
              (executeTemplate (siteWith machine [])
                 {| TemplateData.Results := [];
                    TemplateData.Keyword := SearchConfig.Keyword config;
                    TemplateData.SelectedType := go "single_choice";
                    TemplateData.ResultCount := 0;
                    TemplateData.SearchPerformed := false;
                    TemplateData.Message := go "⚠️ 请选择一种题型！";
                    TemplateData.MessageType := go "warning" |})
        | _ =>
            match searchQuestionsFromFile machine config with
            | ProcessExit => ProcessExit
            | Done (Failed err) => Done (Error (go "搜索错误: " ++ err) 500)
            | Done Panicked => Done Crash
            | Done (Returned questions) =>
                let count := Z.of_nat (length questions) in
                Done
                  (executeTemplate (siteWith machine [])
                     {| TemplateData.Results := questions;
                        TemplateData.Keyword := SearchConfig.Keyword config;
                        TemplateData.SelectedType := SearchConfig.Type_ config;
                        TemplateData.ResultCount := count;
                        TemplateData.SearchPerformed := true;
                        TemplateData.Message :=
                          match questions with
                          | [] => go "🔍 没有找到相关题目，请尝试其他关键词"
                          | _ =>
                              go "✅ 搜索完成！找到 " ++ Itoa count
                                ++ go " 条相关题目"
                          end;
                        TemplateData.MessageType :=
                          match questions with
                          | [] => go "warning"
                          | _ => go "success"
                          end |})
            end
        end
    end.

(** The router of the serverless entry point. *)
Definition Handler (site : Site.t) (r : Request.t) : response :=
  if eqb (Request.Path r) (go "/") then handleIndex site r
  else if eqb (Request.Path r) (go "/search") then handleSearch site r
  else Redirect (go "/") 302.

End Program.

(** ** Vocabulary of the statements *)

(** All the records held by the buckets, bucket after bucket. *)
Definition allRecords (cats : gomap QuestionCategory.t) : list QuestionItem.t :=
  concat (map (fun kc => QuestionCategory.Questions (snd kc)) cats).

(** The records of a list whose type name is [k]. *)
Definition ofType (k : gostring) (qs : list QuestionItem.t)
  : list QuestionItem.t :=
  filter (fun q => eqb (getQuestionTypeName (QuestionItem.Type_ q)) k) qs.

(** What the map holds once the records [qs] have been filed. *)
Record indexed (qs : list QuestionItem.t) (cats : gomap QuestionCategory.t)
  : Prop := {
  ix_keys : NoDup (map fst cats);
  ix_lookup : forall k,
      lookup k cats
      = match ofType k qs with
        | [] => None
        | l => Some {| QuestionCategory.TypeName := k;
                       QuestionCategory.Questions := l |}
        end;
  ix_records : Permutation (allRecords cats) qs
}.

(** [a] may stand before [b] in a ranking: a higher score, or an equal score
    and a title that is not longer (in bytes). *)
Definition rank_order (a b : Result.t) : Prop :=
  (Result.Relevance b < Result.Relevance a)%Q
  \/ ((Result.Relevance a == Result.Relevance b)%Q
      /\ length (Result.Title a) <= length (Result.Title b)).



(** The label [selectCategory] looks up, for a recognized type. *)
Definition requestedName (config : SearchConfig.t) : option gostring :=
  if eqb (SearchConfig.Type_ config) (go "single_choice")
  then Some (go "单选题")
  else if eqb (SearchConfig.Type_ config) (go "choice")
  then Some (go "多选题")
  else if eqb (SearchConfig.Type_ config) (go "determine")
  then Some (go "判断题")
  else None.

(** The text word that settles a keyword word: the first one that is equal
    to it or contains it. *)
Definition firstMatch (kw : gostring) (questionWords : list gostring)
  : option gostring :=
  find (fun qw => eqb qw kw || Contains qw kw) questionWords.

(** The keyword words settled by an equal text word, and those settled by a
    text word that only contains them. *)
Definition exact_count (keywordWords questionWords : list gostring) : Z :=
  Z.of_nat
    (length
       (filter (fun kw => match firstMatch kw questionWords with
                          | Some qw => eqb qw kw
                          | None => false
                          end) keywordWords)).

Definition partial_count (keywordWords questionWords : list gostring) : Z :=
  Z.of_nat
    (length
       (filter (fun kw => match firstMatch kw questionWords with
                          | Some qw => negb (eqb qw kw)
                          | None => false
                          end) keywordWords)).





(** The binary64 value nearest to a fraction of two small integers: the
    value Go gives the decimal literal that denotes the fraction. *)
Definition nearest64 (q : Q) : float :=
  (float64 (Qnum q) / float64 (Z.pos (Qden q)))%float.

(** The keyword has a word, and each of its words is equal to, or contained
    in, some word of the text. *)
Definition allWordsMatch (keywordWords questionWords : list gostring) : Prop :=
  keywordWords <> []
  /\ forall kw, In kw keywordWords ->
       exists qw, In qw questionWords /\ (qw = kw \/ Contains qw kw = true).

(** The tiers of the scorer: the conditions under which it returns a
    value. *)
Inductive tier {golib : GoLib} (T K : gostring) : Q -> Prop :=
| tier_empty : K = [] -> tier T K 1.0%Q
| tier_equal : K <> [] -> ToLower T = ToLower K -> tier T K 1.0%Q
| tier_prefix :
    K <> [] -> ToLower T <> ToLower K ->
    HasPrefix (ToLower T) (ToLower K) = true -> tier T K 0.95%Q
| tier_boundary :
    K <> [] -> HasPrefix (ToLower T) (ToLower K) = false ->
    Contains (ToLower T) (ToLower K) = true -> tier T K 0.9%Q
| tier_inside :
    K <> [] -> HasPrefix (ToLower T) (ToLower K) = false ->
    Contains (ToLower T) (ToLower K) = true -> tier T K 0.8%Q
| tier_no_word :
    K <> [] -> Contains (ToLower T) (ToLower K) = false ->
    Fields (ToLower K) = [] -> tier T K 0%Q
| tier_missing :
    K <> [] -> Contains (ToLower T) (ToLower K) = false ->
    Fields (ToLower K) <> [] ->
    ~ allWordsMatch (Fields (ToLower K)) (Fields (ToLower T)) ->
    tier T K 0.3%Q
| tier_words (v : Q) :
    K <> [] -> Contains (ToLower T) (ToLower K) = false ->
    allWordsMatch (Fields (ToLower K)) (Fields (ToLower T)) ->
    (v == 0.7 + 0.1 * inject_Z (exact_count (Fields (ToLower K))
                                  (Fields (ToLower T))))%Q ->
    tier T K v.

(** The title a result is shown, and scored, with. *)
Definition displayTitle (title : gostring) : gostring :=
  go " " ++ cleanText title ++ [x0a].

(** The type labels the [switch] of [searchQuestions] knows. *)
Definition recognizedTypes : list gostring :=
  [go "single_choice"; go "choice"; go "determine"].

(** The candidates of a search: one scored result for each record whose type
    name is the display name of the requested type, in the order the records
    are visited. *)
Definition candidates {golib : GoLib} (allQuestions : gomap QuestionItem.t)
    (config : SearchConfig.t) : list Result.t :=
  map (fun q =>
         setRelevance (makeResult config q)
           (calculateRelevance (displayTitle (QuestionItem.Title q))
              (SearchConfig.Keyword config)))
      (ofType (getQuestionTypeName (SearchConfig.Type_ config))
         (map snd allQuestions)).

(** The configuration [handleSearch] searches with. *)
Definition configOf (r : Request.t) : SearchConfig.t :=
  {| SearchConfig.Keyword := TrimSpace (Request.FormValue r (go "keyword"));
     SearchConfig.Type_ := Request.FormValue r (go "question_type") |}.

(** The entries [readFile] meets, in the order it meets them: those of each
    line that is not blank and decodes. *)
Fixpoint ingested (Unmarshal : gostring -> option (gomap QuestionItem.t))
    (lines : list gostring) : gomap QuestionItem.t :=
  match lines with
  | [] => []
  | line :: rest =>
      match TrimSpace line with
      | [] => ingested Unmarshal rest
      | _ =>
          match Unmarshal line with
          | Some items => items ++ ingested Unmarshal rest
          | None => ingested Unmarshal rest
          end
      end
  end.

(** Two decoders that read the same entries from every line, possibly in
    another order; the keys of a decoded JSON object are distinct. *)
Definition sameEntries
    (U U' : gostring -> option (gomap QuestionItem.t)) : Prop :=
  forall line,
    match U line, U' line with
    | Some a, Some b => Permutation a b /\ NoDup (map fst a)
    | None, None => True
    | _, _ => False
    end.

(** [small] is what is left of [big] once some of its elements are
    deleted. *)
Inductive subsequence {A : Type} : list A -> list A -> Prop :=
| sub_nil : subsequence [] []
| sub_keep (x : A) (small big : list A) :
    subsequence small big -> subsequence (x :: small) (x :: big)
| sub_drop (x : A) (small big : list A) :
    subsequence small big -> subsequence small (x :: big).

(** ** Records and requests of the examples *)

Definition question (uuid type_ title : gostring) : QuestionItem.t :=
  {| QuestionItem.UUID := uuid;
     QuestionItem.Type_ := type_;
     QuestionItem.Title := title;
     QuestionItem.Score := VString (go "2");
     QuestionItem.ShowAnswer := go "A";
     QuestionItem.Choices := [];
     QuestionItem.Difficulty := go "simple" |}.

Definition request (keyword type_ : gostring) : SearchConfig.t :=
  {| SearchConfig.Keyword := keyword; SearchConfig.Type_ := type_ |}.

(** Scenario A of the spec. *)
Definition scenarioA : gomap QuestionItem.t :=
  [(go "q1", question (go "q1") (go "single_choice") (go "计算机网络基础概念"))].

(** Scenario C of the spec. *)
Definition scenarioC : gomap QuestionItem.t :=
  [(go "q1", question (go "q1") (go "single_choice") (go "操作系统原理"));
   (go "q2", question (go "q2") (go "single_choice") (go "操作系统概述"));
   (go "q3", question (go "q3") (go "single_choice") (go "数据库系统"))].

(** A corpus with multiple-choice questions only. *)
Definition onlyMultiChoice : gomap QuestionItem.t :=
  [(go "q1", question (go "q1") (go "choice") (go "操作系统原理"))].

(** A title with a full-width comma (U+FF0C) before the keyword. *)
Definition commaTitle : gomap QuestionItem.t :=
  [(go "q1", question (go "q1") (go "single_choice") (go "你好，世界"))].



(** [strconv.Itoa]: the decimal digits, after a minus sign for a negative
    number.  A number has no more decimal digits than binary ones. *)
Fixpoint digits (fuel : nat) (n : Z) (acc : gostring) : gostring :=
  match fuel with
  | O => acc
  | S fuel' =>
      let acc' := byte_of_Z (48 + n mod 10) :: acc in
      if (n <? 10)%Z then acc' else digits fuel' (n / 10) acc'
  end.

Definition decimal (z : Z) : gostring :=
  let n := Z.abs z in
  let ds := digits (S (Z.to_nat (Z.log2 n))) n [] in
  if (z <? 0)%Z then x2d :: ds else ds.

(** [goSmall] with the printer of integers, for the pages of the handler. *)
Definition goDecimal : GoLib := {|
  ToLower := lowerASCII;
  FormatFloat := fun _ => go "0";
  Itoa := decimal;
  sort_Slice := @insertionSort
|}.

(** A site with the records of scenario C, whose template parses and
    executes. *)
Definition exampleSite : Site.t :=
  {| Site.allQuestions := scenarioC;
     Site.ParseFiles := None;
     Site.Execute := fun _ => None |}.

(** The POST of the search form. *)
Definition searchRequest (keyword type_ : gostring) : Request.t :=
  {| Request.Method := go "POST";
     Request.Path := go "/search";
     Request.ParseForm := None;
     Request.FormValue :=
       fun key =>
         if eqb key (go "keyword") then keyword
         else if eqb key (go "question_type") then type_
         else [] |}.

(** A file of two lines; the second holds the uuid of the first again, with
    another title, and a new one.  Two decoders of its lines, which visit
    the entries of the second line in the two possible orders. *)
Definition exampleFile : gostring := go "first" ++ [x0a] ++ go "second".

Definition decodeWith (table : gomap (gomap QuestionItem.t))
    (line : gostring) : option (gomap QuestionItem.t) :=
  lookup line table.

Definition exampleDecoder : gostring -> option (gomap QuestionItem.t) :=
  decodeWith
    [(go "first",
      [(go "q1", question (go "q1") (go "single_choice") (go "ab"))]);
     (go "second",
      [(go "q1", question (go "q1") (go "choice") (go "xy"));
       (go "q2", question (go "q2") (go "single_choice") (go "cd"))])].

Definition exampleDecoder' : gostring -> option (gomap QuestionItem.t) :=
  decodeWith
    [(go "first",
      [(go "q1", question (go "q1") (go "single_choice") (go "ab"))]);
     (go "second",
      [(go "q2", question (go "q2") (go "single_choice") (go "cd"));
       (go "q1", question (go "q1") (go "choice") (go "xy"))])].

(** ** Facts about the string functions *)

Lemma eqb_eq (s t : gostring) : eqb s t = true <-> s = t.
Proof.
  revert t; induction s as [|a s IH]; intros [|b t]; simpl;
    try (split; [discriminate | discriminate]); try tauto.
  rewrite andb_true_iff, IH. split.
  - intros [Hab ->]. apply Byte.byte_dec_bl in Hab. now subst.
  - intros [= -> ->]. split; [now apply Byte.byte_dec_lb | reflexivity].
Qed.

Lemma eqb_refl (s : gostring) : eqb s s = true.
Proof. now apply eqb_eq. Qed.

Lemma eqb_neq (s t : gostring) : eqb s t = false <-> s <> t.
Proof.
  rewrite <- eqb_eq. destruct (eqb s t); split; congruence.
Qed.

Lemma HasPrefix_nil (s : gostring) : HasPrefix s [] = true.
Proof. reflexivity. Qed.

Lemma HasPrefix_cons (a b : byte) (s p : gostring) :
  HasPrefix (a :: s) (b :: p) = Byte.eqb a b && HasPrefix s p.
Proof.
  unfold HasPrefix; simpl.
  destruct (Byte.eqb a b); simpl; [reflexivity | apply andb_false_r].
Qed.

Lemma HasPrefix_nil_l (b : byte) (p : gostring) : HasPrefix [] (b :: p) = false.
Proof. reflexivity. Qed.

Lemma HasPrefix_iff (s p : gostring) :
  HasPrefix s p = true <-> exists r, s = p ++ r.
Proof.
  revert s; induction p as [|b p IH]; intros s.
  - split; [exists s; reflexivity | reflexivity].
  - destruct s as [|a s].
    + split; [discriminate | intros [r Hr]; discriminate].
    + rewrite HasPrefix_cons, andb_true_iff, IH. split.
      * intros [Hab [r ->]]. apply Byte.byte_dec_bl in Hab. subst.
        now exists r.
      * intros [r [= -> ->]]. split; [now apply Byte.byte_dec_lb | now exists r].
Qed.

Lemma HasPrefix_skipn (s p : gostring) :
  HasPrefix s p = true -> s = p ++ skipn (length p) s.
Proof.
  intros H. apply HasPrefix_iff in H as [r ->].
  now rewrite skipn_app, skipn_all, Nat.sub_diag.
Qed.

Lemma HasPrefix_refl (s : gostring) : HasPrefix s s = true.
Proof. apply HasPrefix_iff. exists []. now rewrite app_nil_r. Qed.

Lemma HasPrefix_app_l (s t p : gostring) :
  HasPrefix s p = true -> HasPrefix (s ++ t) p = true.
Proof.
  rewrite !HasPrefix_iff. intros [r ->]. exists (r ++ t).
  now rewrite app_assoc.
Qed.

Lemma Index_lower (s sub : gostring) : (-1 <= Index s sub)%Z.
Proof.
  induction s as [|a s IH]; simpl.
  - destruct (HasPrefix [] sub); lia.
  - destruct (HasPrefix (a :: s) sub); [lia|].
    destruct (Z.ltb_spec (Index s sub) 0); lia.
Qed.

Lemma Index_prefix (s sub : gostring) :
  HasPrefix s sub = true -> Index s sub = 0%Z.
Proof. intros H. destruct s; simpl; now rewrite H. Qed.

Lemma Index_zero (s sub : gostring) :
  Index s sub = 0%Z -> HasPrefix s sub = true.
Proof.
  destruct s as [|a s]; simpl.
  - destruct (HasPrefix [] sub); [reflexivity | discriminate].
  - destruct (HasPrefix (a :: s) sub); [reflexivity|].
    pose proof (Index_lower s sub).
    destruct (Z.ltb_spec (Index s sub) 0); lia.
Qed.

Lemma Contains_prefix (s sub : gostring) :
  HasPrefix s sub = true -> Contains s sub = true.
Proof. intros H. unfold Contains. now rewrite Index_prefix. Qed.

Lemma Contains_cons (a : byte) (s sub : gostring) :
  Contains (a :: s) sub = HasPrefix (a :: s) sub || Contains s sub.
Proof.
  unfold Contains; simpl.
  destruct (HasPrefix (a :: s) sub); [reflexivity|]. simpl.
  pose proof (Index_lower s sub).
  destruct (Z.ltb_spec (Index s sub) 0);
    destruct (Z.leb_spec 0 (Index s sub)); try lia; try reflexivity.
Qed.

Lemma Contains_nil_l (sub : gostring) : Contains [] sub = HasPrefix [] sub.
Proof. unfold Contains; simpl. now destruct (HasPrefix [] sub). Qed.

(** [Contains] is "occurs somewhere". *)
Lemma Contains_iff (s sub : gostring) :
  Contains s sub = true <-> exists l r, s = l ++ sub ++ r.
Proof.
  induction s as [|a s IH].
  - rewrite Contains_nil_l, HasPrefix_iff. split.
    + intros [r Hr]. now exists [], r.
    + intros [l [r H]]. destruct l; [now exists r | discriminate].
  - rewrite Contains_cons, orb_true_iff, HasPrefix_iff, IH. split.
    + intros [[r Hr] | [l [r Hr]]].
      * now exists [], r.
      * exists (a :: l), r. now rewrite Hr.
    + intros [[|b l] [r Hr]].
      * left. now exists r.
      * right. injection Hr as -> ->. now exists l, r.
Qed.

(** A [ReplaceAll] that finds nothing returns its argument. *)
Lemma ReplaceAll_absent (s old new : gostring) :
  Contains s old = false -> ReplaceAll s old new = s.
Proof.
  unfold ReplaceAll. induction s as [|a s IH]; intros H; [reflexivity|].
  rewrite Contains_cons in H. apply orb_false_iff in H as [Hp Hc].
  cbn [replaceFrom]. rewrite Hp. now rewrite IH.
Qed.

Lemma replaceFrom_length (old : gostring) (s : gostring) (skip : nat) :
  length (replaceFrom old [] skip s) <= length s.
Proof.
  revert skip; induction s as [|a s IH]; intros skip; simpl; [lia|].
  destruct skip as [|k].
  - destruct (HasPrefix (a :: s) old); simpl.
    + specialize (IH (length old - 1)). lia.
    + specialize (IH 0). lia.
  - specialize (IH k). lia.
Qed.

Lemma ReplaceAll_length (s old : gostring) :
  length (ReplaceAll s old []) <= length s.
Proof. apply replaceFrom_length. Qed.

Lemma ReplaceAll_shrinks (s old : gostring) :
  old <> [] -> Contains s old = true ->
  length (ReplaceAll s old []) < length s.
Proof.
  intros Hold. unfold ReplaceAll. induction s as [|a s IH]; intros H.
  - rewrite Contains_nil_l in H. destruct old; [congruence | discriminate].
  - rewrite Contains_cons in H. cbn [replaceFrom].
    destruct (HasPrefix (a :: s) old) eqn:Hp; simpl.
    + pose proof (replaceFrom_length old s (length old - 1)). lia.
    + simpl in H. specialize (IH H). lia.
Qed.

(** Stripping the patterns of a list from the front of a string. *)
Lemma stripOne_Some (pats : list gostring) (s s' : gostring) :
  stripOne pats s = Some s' -> exists p, In p pats /\ s = p ++ s'.
Proof.
  induction pats as [|p pats IH]; simpl; [discriminate|].
  destruct (HasPrefix s p) eqn:Hp.
  - intros [= <-]. exists p. split; [now left | now apply HasPrefix_skipn].
  - intros H. destruct (IH H) as [q [Hq ->]]. exists q. auto.
Qed.

Lemma stripOne_None (pats : list gostring) (s : gostring) :
  stripOne pats s = None <-> forall p, In p pats -> HasPrefix s p = false.
Proof.
  induction pats as [|p pats IH]; simpl.
  - split; [intros _ q [] | reflexivity].
  - destruct (HasPrefix s p) eqn:Hp.
    + split; [discriminate|]. intros H. specialize (H p (or_introl eq_refl)).
      congruence.
    + rewrite IH. split.
      * intros H q [<- | Hq]; auto.
      * intros H q Hq. apply H. now right.
Qed.

Lemma stripOne_None_prefix (pats : list gostring) (u r : gostring) :
  stripOne pats (u ++ r) = None -> stripOne pats u = None.
Proof.
  rewrite !stripOne_None. intros H p Hp. specialize (H p Hp).
  destruct (HasPrefix u p) eqn:E; [|reflexivity].
  now rewrite (HasPrefix_app_l u r p E) in H.
Qed.

Lemma stripAll_fixed (pats : list gostring) (fuel : nat) (s : gostring) :
  stripOne pats s = None -> stripAll pats fuel s = s.
Proof. intros H. destruct fuel; simpl; [reflexivity | now rewrite H]. Qed.

Lemma stripAll_suffix (pats : list gostring) (fuel : nat) (s : gostring) :
  exists pre, s = pre ++ stripAll pats fuel s.
Proof.
  revert s; induction fuel as [|n IH]; intros s; simpl.
  - now exists [].
  - destruct (stripOne pats s) as [s'|] eqn:E; [|now exists []].
    apply stripOne_Some in E as [p [_ ->]].
    destruct (IH s') as [pre Hpre]. exists (p ++ pre).
    rewrite <- app_assoc. now rewrite <- Hpre.
Qed.

Lemma stripAll_done (pats : list gostring) (fuel : nat) (s : gostring) :
  Forall (fun p => p <> []) pats -> length s <= fuel ->
  stripOne pats (stripAll pats fuel s) = None.
Proof.
  intros Hne. revert s; induction fuel as [|n IH]; intros s Hlen; simpl.
  - destruct s; [|simpl in Hlen; lia].
    apply stripOne_None. intros p Hp.
    rewrite Forall_forall in Hne. specialize (Hne p Hp).
    destruct p; [congruence | reflexivity].
  - destruct (stripOne pats s) as [s'|] eqn:E; [|exact E].
    apply IH. apply stripOne_Some in E as [p [Hp ->]].
    rewrite Forall_forall in Hne. specialize (Hne p Hp).
    rewrite length_app in Hlen. destruct p; [congruence|]. simpl in Hlen. lia.
Qed.

Lemma spaceEncodings_nonempty : Forall (fun p : gostring => p <> []) spaceEncodings.
Proof.
  apply Forall_forall. intros p Hp.
  assert (H : forallb (fun p : gostring => negb (eqb p [])) spaceEncodings = true)
    by (vm_compute; reflexivity).
  rewrite forallb_forall in H. specialize (H p Hp).
  intros ->. discriminate.
Qed.

Lemma rev_spaceEncodings_nonempty :
  Forall (fun p : gostring => p <> []) (map (@rev byte) spaceEncodings).
Proof.
  apply Forall_forall. intros p Hp.
  assert (H : forallb (fun p : gostring => negb (eqb p []))
                (map (@rev byte) spaceEncodings) = true)
    by (vm_compute; reflexivity).
  rewrite forallb_forall in H. specialize (H p Hp).
  intros ->. discriminate.
Qed.

Lemma TrimLeft_done (s : gostring) : stripOne spaceEncodings (TrimLeft s) = None.
Proof. apply stripAll_done; [apply spaceEncodings_nonempty | lia]. Qed.

Lemma TrimLeft_fixed (s : gostring) :
  stripOne spaceEncodings s = None -> TrimLeft s = s.
Proof. apply stripAll_fixed. Qed.

Lemma TrimLeft_length (s : gostring) : length (TrimLeft s) <= length s.
Proof.
  unfold TrimLeft.
  destruct (stripAll_suffix spaceEncodings (length s) s) as [pre H].
  apply (f_equal (@length byte)) in H. rewrite length_app in H. lia.
Qed.

Lemma TrimRight_prefix (s : gostring) : exists r, s = TrimRight s ++ r.
Proof.
  unfold TrimRight.
  destruct (stripAll_suffix (map (@rev byte) spaceEncodings) (length s) (rev s))
    as [pre H].
  exists (rev pre). rewrite <- rev_app_distr, <- H. now rewrite rev_involutive.
Qed.

Lemma TrimRight_length (s : gostring) : length (TrimRight s) <= length s.
Proof.
  destruct (TrimRight_prefix s) as [r H].
  apply (f_equal (@length byte)) in H. rewrite length_app in H. lia.
Qed.

Lemma TrimRight_idem (s : gostring) : TrimRight (TrimRight s) = TrimRight s.
Proof.
  unfold TrimRight. rewrite rev_involutive. f_equal. apply stripAll_fixed.
  apply stripAll_done; [apply rev_spaceEncodings_nonempty|].
  rewrite length_rev. lia.
Qed.

Lemma TrimSpace_idem (s : gostring) : TrimSpace (TrimSpace s) = TrimSpace s.
Proof.
  unfold TrimSpace.
  rewrite (TrimLeft_fixed (TrimRight (TrimLeft s))).
  - apply TrimRight_idem.
  - destruct (TrimRight_prefix (TrimLeft s)) as [r H].
    apply stripOne_None_prefix with (r := r). rewrite <- H.
    apply TrimLeft_done.
Qed.

Lemma TrimSpace_length (s : gostring) : length (TrimSpace s) <= length s.
Proof.
  unfold TrimSpace. pose proof (TrimRight_length (TrimLeft s)).
  pose proof (TrimLeft_length s). lia.
Qed.

(** ** The text normalizer *)

Lemma cleanText_fold (text : gostring) :
  cleanText text
  = TrimSpace (fold_left (fun t p => ReplaceAll t p []) noise text).
Proof. reflexivity. Qed.

Lemma removeAll_absent (pats : list gostring) (t : gostring) :
  (forall p, In p pats -> Contains t p = false) ->
  fold_left (fun t p => ReplaceAll t p []) pats t = t.
Proof.
  induction pats as [|p pats IH]; intros H; simpl; [reflexivity|].
  rewrite ReplaceAll_absent by (apply H; now left).
  apply IH. intros q Hq. apply H. now right.
Qed.

Lemma removeAll_length (pats : list gostring) (t : gostring) :
  length (fold_left (fun t p => ReplaceAll t p []) pats t) <= length t.
Proof.
  revert t; induction pats as [|p pats IH]; intros t; simpl; [lia|].
  specialize (IH (ReplaceAll t p [])).
  pose proof (ReplaceAll_length t p). lia.
Qed.

Lemma removeAll_shrinks (pats : list gostring) (t : gostring) :
  Forall (fun p => p <> []) pats ->
  (exists p, In p pats /\ Contains t p = true) ->
  length (fold_left (fun t p => ReplaceAll t p []) pats t) < length t.
Proof.
  intros Hne. revert t; induction Hne as [|p pats Hp Hne IH]; intros t [q [Hq Hc]].
  - destruct Hq.
  - simpl. destruct (Contains t p) eqn:E.
    + pose proof (ReplaceAll_shrinks t p Hp E).
      pose proof (removeAll_length pats (ReplaceAll t p [])). lia.
    + rewrite ReplaceAll_absent by exact E. apply IH.
      destruct Hq as [<- | Hq]; [congruence | now exists q].
Qed.

Lemma noise_nonempty : Forall (fun p : gostring => p <> []) noise.
Proof. repeat constructor; discriminate. Qed.

(** C4, as the spec states it, fails: removing the inner ["<p>"] of
    ["<<p>p>"] splices a new ["<p>"], which only a second pass removes. *)
Lemma cleanText_not_idempotent :
  cleanText (cleanText (go "<<p>p>")) <> cleanText (go "<<p>p>").
Proof. vm_compute. discriminate. Qed.

(** C4, amended: [cleanText] returns a fixed point of itself exactly when
    none of the seven noise substrings occurs in what it returns; the removal
    is a single pass per substring and trimming is idempotent. *)
Theorem cleanText_idempotent_iff (s : gostring) :
  cleanText (cleanText s) = cleanText s
  <-> (forall p, In p noise -> Contains (cleanText s) p = false).
Proof.
  split.
  - intros Hfix p Hp. destruct (Contains (cleanText s) p) eqn:E; [|reflexivity].
    exfalso.
    assert (Hlt : length (cleanText (cleanText s)) < length (cleanText s)).
    { rewrite (cleanText_fold (cleanText s)).
      pose proof (TrimSpace_length
                    (fold_left (fun t p => ReplaceAll t p []) noise (cleanText s))).
      pose proof (removeAll_shrinks noise (cleanText s) noise_nonempty
                    (ex_intro _ p (conj Hp E))).
      lia. }
    rewrite Hfix in Hlt. lia.
  - intros Habs. rewrite (cleanText_fold (cleanText s)).
    rewrite removeAll_absent by exact Habs.
    rewrite cleanText_fold. apply TrimSpace_idem.
Qed.

(** ** The category index *)

Lemma lookup_assign_same {V : Type} (k : gostring) (v : V) (m : gomap V) :
  lookup k (assign k v m) = Some v.
Proof.
  induction m as [|[k' v'] m IH]; simpl.
  - now rewrite eqb_refl.
  - destruct (eqb k' k) eqn:E; simpl; rewrite E; [reflexivity | exact IH].
Qed.

Lemma lookup_assign_other {V : Type} (k k' : gostring) (v : V) (m : gomap V) :
  k <> k' -> lookup k' (assign k v m) = lookup k' m.
Proof.
  intros Hne. induction m as [|[k0 v0] m IH]; simpl.
  - apply eqb_neq in Hne. now rewrite Hne.
  - destruct (eqb k0 k) eqn:E; simpl.
    + apply eqb_eq in E. subst k0.
      apply eqb_neq in Hne. now rewrite Hne.
    + destruct (eqb k0 k'); [reflexivity | exact IH].
Qed.

Lemma lookup_In {V : Type} (k : gostring) (v : V) (m : gomap V) :
  lookup k m = Some v -> In (k, v) m.
Proof.
  induction m as [|[k' v'] m IH]; simpl; [discriminate|].
  destruct (eqb k' k) eqn:E.
  - apply eqb_eq in E. intros [= ->]. left. now subst.
  - intros H. right. now apply IH.
Qed.

Lemma In_lookup {V : Type} (k : gostring) (v : V) (m : gomap V) :
  NoDup (map fst m) -> In (k, v) m -> lookup k m = Some v.
Proof.
  induction m as [|[k' v'] m IH]; simpl; [intros _ []|].
  intros Hnd [[= -> ->] | Hin].
  - now rewrite eqb_refl.
  - inversion Hnd as [|? ? Hnotin Hnd']; subst.
    destruct (eqb k' k) eqn:E.
    + apply eqb_eq in E. subst k'. exfalso. apply Hnotin.
      change k with (fst (k, v)). now apply in_map.
    + now apply IH.
Qed.

Lemma lookup_None {V : Type} (k : gostring) (m : gomap V) :
  lookup k m = None <-> ~ In k (map fst m).
Proof.
  induction m as [|[k' v'] m IH]; simpl.
  - tauto.
  - destruct (eqb k' k) eqn:E.
    + apply eqb_eq in E. split; [discriminate | intros H; exfalso; auto].
    + apply eqb_neq in E. rewrite IH. tauto.
Qed.

Lemma keys_assign {V : Type} (k : gostring) (v : V) (m : gomap V) :
  map fst (assign k v m)
  = match lookup k m with
    | Some _ => map fst m
    | None => map fst m ++ [k]
    end.
Proof.
  induction m as [|[k' v'] m IH]; simpl; [reflexivity|].
  destruct (eqb k' k) eqn:E; simpl; [reflexivity|].
  rewrite IH. now destruct (lookup k m).
Qed.

Lemma allRecords_assign_new (k : gostring) (c : QuestionCategory.t)
    (cats : gomap QuestionCategory.t) :
  lookup k cats = None ->
  allRecords (assign k c cats) = allRecords cats ++ QuestionCategory.Questions c.
Proof.
  unfold allRecords. induction cats as [|[k' c'] cats IH]; simpl.
  - intros _. now rewrite app_nil_r.
  - destruct (eqb k' k); [discriminate|]. intros H. simpl.
    rewrite IH by exact H. now rewrite app_assoc.
Qed.

Lemma allRecords_assign_old (k : gostring) (c : QuestionCategory.t)
    (cats : gomap QuestionCategory.t) :
  lookup k cats = Some c ->
  exists l r,
    allRecords cats = l ++ QuestionCategory.Questions c ++ r
    /\ forall c', allRecords (assign k c' cats)
                  = l ++ QuestionCategory.Questions c' ++ r.
Proof.
  unfold allRecords. induction cats as [|[k' c0] cats IH]; simpl; [discriminate|].
  destruct (eqb k' k) eqn:E.
  - intros [= ->]. exists [], (concat (map (fun kc => QuestionCategory.Questions (snd kc)) cats)).
    split; [reflexivity | intros c'; reflexivity].
  - intros H. destruct (IH H) as [l [r [H1 H2]]].
    exists (QuestionCategory.Questions c0 ++ l), r. split.
    + rewrite H1. now rewrite <- app_assoc.
    + intros c'. simpl. rewrite H2. now rewrite <- app_assoc.
Qed.

Lemma indexed_nil : indexed [] [].
Proof.
  split; simpl; [constructor | reflexivity | constructor].
Qed.

Lemma ofType_snoc (k : gostring) (qs : list QuestionItem.t)
    (q : QuestionItem.t) :
  ofType k (qs ++ [q])
  = ofType k qs
      ++ (if eqb (getQuestionTypeName (QuestionItem.Type_ q)) k
          then [q] else []).
Proof. unfold ofType. now rewrite filter_app. Qed.

Lemma fileQuestion_indexed (qs : list QuestionItem.t)
    (cats : gomap QuestionCategory.t) (q : QuestionItem.t) :
  indexed qs cats -> indexed (qs ++ [q]) (fileQuestion cats q).
Proof.
  intros [Hkeys Hlook Hrec]. unfold fileQuestion.
  set (k0 := getQuestionTypeName (QuestionItem.Type_ q)).
  set (cats1 := match lookup k0 cats with
                | None => assign k0 {| QuestionCategory.TypeName := k0;
                                       QuestionCategory.Questions := [] |} cats
                | Some _ => cats
                end).
  assert (H1 : NoDup (map fst cats1)
               /\ lookup k0 cats1
                  = Some {| QuestionCategory.TypeName := k0;
                            QuestionCategory.Questions := ofType k0 qs |}
               /\ (forall k, k0 <> k -> lookup k cats1 = lookup k cats)
               /\ Permutation (allRecords cats1) qs).
  { subst cats1. pose proof (Hlook k0) as Hk0.
    destruct (lookup k0 cats) as [c|] eqn:E.
    - repeat split; auto.
      rewrite E. destruct (ofType k0 qs); [discriminate | exact Hk0].
    - assert (Hempty : ofType k0 qs = [])
        by (destruct (ofType k0 qs); [reflexivity | discriminate]).
      rewrite Hempty. repeat split.
      + rewrite keys_assign, E. apply NoDup_app; auto.
        * repeat constructor. intros [].
        * intros x Hx [<- | []]. now apply lookup_None in E.
      + apply lookup_assign_same.
      + intros k Hk. now apply lookup_assign_other.
      + rewrite allRecords_assign_new by exact E. simpl.
        now rewrite app_nil_r. }
  destruct H1 as [Hk1 [Hl1 [Ho1 Hr1]]]. rewrite Hl1. simpl.
  destruct (allRecords_assign_old k0 _ cats1 Hl1) as [l [r [Ha Hb]]].
  simpl in Ha. split.
  - rewrite keys_assign, Hl1. exact Hk1.
  - intros k. rewrite ofType_snoc. fold k0.
    destruct (eqb k0 k) eqn:E.
    + apply eqb_eq in E. subst k. rewrite lookup_assign_same.
      destruct (ofType k0 qs); reflexivity.
    + apply eqb_neq in E. rewrite lookup_assign_other by exact E.
      rewrite Ho1 by exact E. rewrite app_nil_r. apply Hlook.
  - rewrite Hb. simpl. rewrite Ha in Hr1.
    eapply Permutation_trans; [|apply Permutation_app_tail; exact Hr1].
    rewrite <- !app_assoc.
    do 2 apply Permutation_app_head.
    apply (Permutation_app_comm [q] r).
Qed.

Lemma fold_fileQuestion_indexed (qs qs0 : list QuestionItem.t)
    (cats : gomap QuestionCategory.t) :
  indexed qs0 cats -> indexed (qs0 ++ qs) (fold_left fileQuestion qs cats).
Proof.
  revert qs0 cats; induction qs as [|q qs IH]; intros qs0 cats H; simpl.
  - now rewrite app_nil_r.
  - replace (qs0 ++ q :: qs) with ((qs0 ++ [q]) ++ qs)
      by (now rewrite <- app_assoc).
    apply IH. now apply fileQuestion_indexed.
Qed.

Lemma getQuestionCategories_indexed (allQuestions : gomap QuestionItem.t) :
  indexed (map snd allQuestions) (getQuestionCategories allQuestions).
Proof.
  unfold getQuestionCategories.
  apply (fold_fileQuestion_indexed (map snd allQuestions) [] []).
  apply indexed_nil.
Qed.

Lemma ofType_In (k : gostring) (qs : list QuestionItem.t) (q : QuestionItem.t) :
  In q (ofType k qs)
  <-> In q qs /\ getQuestionTypeName (QuestionItem.Type_ q) = k.
Proof. unfold ofType. now rewrite filter_In, eqb_eq. Qed.

Lemma indexed_bucket (qs : list QuestionItem.t)
    (cats : gomap QuestionCategory.t) (k : gostring) (c : QuestionCategory.t) :
  indexed qs cats -> In (k, c) cats ->
  QuestionCategory.TypeName c = k
  /\ QuestionCategory.Questions c = ofType k qs
  /\ QuestionCategory.Questions c <> [].
Proof.
  intros [Hkeys Hlook _] Hin.
  apply (In_lookup k c cats Hkeys) in Hin. rewrite Hlook in Hin.
  destruct (ofType k qs) as [|q l]; [discriminate|].
  injection Hin as <-. simpl. repeat split. discriminate.
Qed.

(** C10: the buckets carry distinct type labels; together they hold exactly
    the records of the deduplicated set, each as often as the set does; a
    bucket holds, in ingestion order, the records whose type label is its
    own, so every record is in the bucket of its label and in no other. *)
Theorem category_index_partitions (allQuestions : gomap QuestionItem.t) :
  let cats := getQuestionCategories allQuestions in
  let records := map snd allQuestions in
  NoDup (map fst cats)
  /\ Permutation (allRecords cats) records
  /\ (forall k c, In (k, c) cats ->
        QuestionCategory.TypeName c = k
        /\ QuestionCategory.Questions c = ofType k records
        /\ QuestionCategory.Questions c <> [])
  /\ (forall q, In q records ->
        exists c,
          In (getQuestionTypeName (QuestionItem.Type_ q), c) cats
          /\ In q (QuestionCategory.Questions c))
  /\ (forall q k c, In (k, c) cats -> In q (QuestionCategory.Questions c) ->
        k = getQuestionTypeName (QuestionItem.Type_ q)).
Proof.
  intros cats records.
  pose proof (getQuestionCategories_indexed allQuestions) as Hix.
  fold cats records in Hix.
  split; [apply Hix|]. split; [apply Hix|]. split; [|split].
  - intros k c Hin. now apply (indexed_bucket records cats).
  - intros q Hq.
    set (k := getQuestionTypeName (QuestionItem.Type_ q)).
    assert (Hin : In q (ofType k records)) by (apply ofType_In; auto).
    pose proof (ix_lookup _ _ Hix k) as Hl.
    destruct (ofType k records) as [|q0 l] eqn:E; [destruct Hin|].
    eexists. split; [apply lookup_In; exact Hl | exact Hin].
  - intros q k c Hin Hq.
    destruct (indexed_bucket records cats k c Hix Hin) as [_ [Hqs _]].
    rewrite Hqs in Hq. apply ofType_In in Hq. symmetry. apply Hq.
Qed.

(** ** Facts about the comparator and about sorting *)

Lemma Qgtb_lt (a b : Q) : Qgtb a b = true <-> (b < a)%Q.
Proof. unfold Qgtb, Qlt. apply Z.ltb_lt. Qed.

Lemma Qgtb_le (a b : Q) : Qgtb a b = false <-> (a <= b)%Q.
Proof. unfold Qgtb, Qle. apply Z.ltb_ge. Qed.

Lemma less_true (a b : Result.t) :
  less a b = true
  <-> (Result.Relevance b < Result.Relevance a)%Q
      \/ ((Result.Relevance a == Result.Relevance b)%Q
          /\ length (Result.Title a) < length (Result.Title b)).
Proof.
  unfold less.
  destruct (Qeq_bool (Result.Relevance a) (Result.Relevance b)) eqn:E.
  - apply Qeq_bool_iff in E. rewrite Nat.ltb_lt. split.
    + auto.
    + intros [H | [_ H]]; [lra | exact H].
  - apply Qeq_bool_neq in E. rewrite Qgtb_lt. split.
    + auto.
    + intros [H | [H _]]; [exact H | contradiction].
Qed.

Lemma less_false (a b : Result.t) :
  less a b = false
  <-> (Result.Relevance a < Result.Relevance b)%Q
      \/ ((Result.Relevance a == Result.Relevance b)%Q
          /\ length (Result.Title b) <= length (Result.Title a)).
Proof.
  unfold less.
  destruct (Qeq_bool (Result.Relevance a) (Result.Relevance b)) eqn:E.
  - apply Qeq_bool_iff in E. rewrite Nat.ltb_ge. split.
    + auto.
    + intros [H | [_ H]]; [lra | exact H].
  - apply Qeq_bool_neq in E. rewrite Qgtb_le. split.
    + intros H. left. lra.
    + intros [H | [H _]]; [lra | contradiction].
Qed.

Lemma less_strict_weak : strict_weak less.
Proof.
  split.
  - intros x. apply less_false. right. split; [reflexivity | lia].
  - intros x y z. rewrite !less_true.
    intros [H1 | [H1 H1']] [H2 | [H2 H2']].
    + left; lra.
    + left; lra.
    + left; lra.
    + right. split; [lra | lia].
  - intros x y z. rewrite !less_false.
    intros [H1 | [H1 H1']] [H2 | [H2 H2']].
    + left; lra.
    + left; lra.
    + left; lra.
    + right. split; [lra | lia].
Qed.

Lemma sorted_by_less_rank (l : list Result.t) :
  sorted_by less l -> StronglySorted rank_order l.
Proof.
  unfold sorted_by. induction 1 as [|a l Hs IH Hall]; constructor; auto.
  eapply Forall_impl; [|exact Hall]. intros b Hb. simpl in Hb.
  apply less_false in Hb. unfold rank_order.
  destruct Hb as [Hb | [Hb Hb']]; [left; exact Hb | right; split; [lra | lia]].
Qed.

Lemma StronglySorted_snoc {A : Type} (R : A -> A -> Prop) (l : list A) (x : A) :
  StronglySorted R l -> Forall (fun a => R a x) l -> StronglySorted R (l ++ [x]).
Proof.
  induction 1 as [|a l Hs IH Hall]; intros Hx; simpl.
  - repeat constructor.
  - inversion Hx; subst. constructor; [now apply IH|].
    apply Forall_app. split; [exact Hall | now constructor].
Qed.

Lemma StronglySorted_rev {A : Type} (R : A -> A -> Prop) (l : list A) :
  StronglySorted R l -> StronglySorted (fun a b => R b a) (rev l).
Proof.
  induction 1 as [|a l Hs IH Hall]; simpl; [constructor|].
  apply StronglySorted_snoc; [exact IH|].
  apply Forall_rev. exact Hall.
Qed.




(** Go's insertion sort meets the contract of [sort.Slice]. *)
Lemma insertLeft_perm {A : Type} (less : A -> A -> bool) (x : A) (r : list A) :
  Permutation (x :: r) (insertLeft less x r).
Proof.
  induction r as [|y r IH]; simpl; [apply Permutation_refl|].
  destruct (less x y); [|apply Permutation_refl].
  eapply Permutation_trans; [apply perm_swap|]. now apply perm_skip.
Qed.

Lemma insertLeft_sorted {A : Type} (less : A -> A -> bool) (x : A)
    (r : list A) :
  strict_weak less ->
  StronglySorted (fun u v => less u v = false) r ->
  StronglySorted (fun u v => less u v = false) (insertLeft less x r).
Proof.
  intros Hsw. induction 1 as [|y r Hs IH Hall]; simpl.
  - repeat constructor.
  - destruct (less x y) eqn:E.
    + constructor; [exact IH|].
      eapply Permutation_Forall; [apply insertLeft_perm|].
      constructor; [|exact Hall].
      destruct (less y x) eqn:E'; [|reflexivity].
      pose proof (sw_trans less Hsw x y x E E') as Hxx.
      now rewrite (sw_irrefl less Hsw) in Hxx.
    + constructor; [now constructor|].
      constructor; [exact E|].
      eapply Forall_impl; [|exact Hall]. intros v Hv. simpl in Hv.
      exact (sw_negtrans less Hsw x y v E Hv).
Qed.

Lemma insertionSort_perm {A : Type} (less : A -> A -> bool) (l : list A) :
  Permutation l (insertionSort less l).
Proof.
  unfold insertionSort. eapply Permutation_trans; [|apply Permutation_rev].
  assert (H : forall acc,
             Permutation (l ++ acc)
               (fold_left (fun rpre x => insertLeft less x rpre) l acc)).
  { induction l as [|x l IH]; intros acc; simpl; [apply Permutation_refl|].
    eapply Permutation_trans; [|apply IH].
    eapply Permutation_trans; [apply Permutation_middle|].
    apply Permutation_app_head. apply insertLeft_perm. }
  specialize (H []). now rewrite app_nil_r in H.
Qed.

Lemma insertionSort_sorted {A : Type} (less : A -> A -> bool) (l : list A) :
  strict_weak less -> sorted_by less (insertionSort less l).
Proof.
  intros Hsw. unfold insertionSort, sorted_by.
  apply (StronglySorted_rev (fun u v => less u v = false)).
  assert (H : forall acc,
             StronglySorted (fun u v => less u v = false) acc ->
             StronglySorted (fun u v => less u v = false)
               (fold_left (fun rpre x => insertLeft less x rpre) l acc)).
  { induction l as [|x l IH]; intros acc Hacc; simpl; [exact Hacc|].
    apply IH. now apply insertLeft_sorted. }
  apply H. constructor.
Qed.

Lemma goSmall_contract : SortContract goSmall.
Proof.
  split; intros; simpl.
  - apply insertionSort_perm.
  - now apply insertionSort_sorted.
Qed.

(** ** Facts about the ranker *)






Section Properties.

Context {golib : GoLib}.

Lemma scoreAll_In (keyword : gostring) (l : list Result.t) (r : Result.t) :
  In r (scoreAll keyword l) ->
  Result.Relevance r = calculateRelevance (Result.Title r) keyword
  /\ exists r0, In r0 l /\ Result.Title r = Result.Title r0.
Proof.
  unfold scoreAll. rewrite in_map_iff. intros [r0 [<- Hin]]. simpl.
  split; [reflexivity | now exists r0].
Qed.

Lemma filterAndCap_incl (l : list Result.t) (r : Result.t) :
  In r (filterAndCap l) ->
  In r l /\ (0.5 < Result.Relevance r)%Q.
Proof.
  unfold filterAndCap. intros H.
  assert (H' : In r (filter (fun q => Qgtb (Result.Relevance q) 0.5%Q) l)).
  { destruct (20 <? length _)%nat; [|exact H].
    rewrite <- (firstn_skipn 20 (filter _ l)). apply in_or_app. now left. }
  apply filter_In in H' as [Hin Hgt]. now apply Qgtb_lt in Hgt.
Qed.

Lemma filterAndCap_length (l : list Result.t) : length (filterAndCap l) <= 20.
Proof.
  unfold filterAndCap.
  destruct (Nat.ltb_spec 20 (length (filter (fun q => Qgtb (Result.Relevance q) 0.5%Q) l))).
  - rewrite length_firstn. lia.
  - lia.
Qed.



Lemma selectCategory_lookup (config : SearchConfig.t)
    (cats : gomap QuestionCategory.t) :
  selectCategory config cats
  = option_map (fun k => lookup k cats) (requestedName config).
Proof.
  unfold selectCategory, requestedName.
  destruct (eqb _ (go "single_choice")); [reflexivity|].
  destruct (eqb _ (go "choice")); [reflexivity|].
  destruct (eqb _ (go "determine")); reflexivity.
Qed.

Lemma searchQuestions_Returned (allQuestions : gomap QuestionItem.t)
    (config : SearchConfig.t) (rs : list Result.t) :
  searchQuestions allQuestions config = Returned rs
  <-> exists category,
        selectCategory config (getQuestionCategories allQuestions)
        = Some (Some category)
        /\ rs = match SearchConfig.Keyword config with
                | [] => rankCategory config category
                | _ => filterAndCap (rankCategory config category)
                end.
Proof.
  unfold searchQuestions.
  destruct (selectCategory config (getQuestionCategories allQuestions))
    as [[category|]|].
  - split.
    + intros H. exists category. split; [reflexivity|].
      destruct (SearchConfig.Keyword config); now injection H as <-.
    + intros [c [[= <-] ->]]. now destruct (SearchConfig.Keyword config).
  - split; [discriminate | intros [c [H _]]; discriminate].
  - split; [discriminate | intros [c [H _]]; discriminate].
Qed.

Section WithSort.

Hypothesis sort_ok : SortContract golib.

Lemma rankCategory_perm (config : SearchConfig.t) (category : QuestionCategory.t) :
  Permutation
    (scoreAll (SearchConfig.Keyword config)
       (map (makeResult config) (QuestionCategory.Questions category)))
    (rankCategory config category).
Proof. unfold rankCategory. apply (sort_perm _ sort_ok). Qed.

Lemma rankCategory_sorted (config : SearchConfig.t)
    (category : QuestionCategory.t) :
  StronglySorted rank_order (rankCategory config category).
Proof.
  unfold rankCategory. apply sorted_by_less_rank.
  apply (sort_sorted _ sort_ok). apply less_strict_weak.
Qed.




Lemma scoreAll_empty_keyword (l : list Result.t) :
  Forall (fun r => Result.Relevance r = 1.0%Q) (scoreAll [] l).
Proof.
  apply Forall_forall. intros r Hr. now apply scoreAll_In in Hr as [-> _].
Qed.

(** C7: with a keyword, every returned result scores above 0.5 and at most
    20 are returned; without one, the whole category comes back, sorted:
    every candidate, each with score 1.0. *)
Theorem threshold_cap_and_empty_keyword (allQuestions : gomap QuestionItem.t)
    (config : SearchConfig.t) (rs : list Result.t) :
  searchQuestions allQuestions config = Returned rs ->
  (SearchConfig.Keyword config <> [] ->
     Forall (fun r => (0.5 < Result.Relevance r)%Q) rs /\ length rs <= 20)
  /\ (SearchConfig.Keyword config = [] ->
      exists category,
        selectCategory config (getQuestionCategories allQuestions)
        = Some (Some category)
        /\ Permutation
             (scoreAll [] (map (makeResult config)
                             (QuestionCategory.Questions category)))
             rs
        /\ StronglySorted rank_order rs
        /\ length rs = length (QuestionCategory.Questions category)
        /\ Forall (fun r => Result.Relevance r = 1.0%Q) rs).
Proof.
  intros H. apply searchQuestions_Returned in H as [category [Hsel ->]].
  split.
  - intros Hk. destruct (SearchConfig.Keyword config) as [|b kw] eqn:E;
      [congruence|]. split.
    + apply Forall_forall. intros r Hr. now apply filterAndCap_incl in Hr.
    + apply filterAndCap_length.
  - intros Hk. exists category. split; [exact Hsel|].
    pose proof (rankCategory_perm config category) as Hp.
    rewrite Hk in *. repeat split.
    + exact Hp.
    + apply rankCategory_sorted.
    + apply Permutation_length in Hp. rewrite <- Hp.
      unfold scoreAll. now rewrite !length_map.
    + eapply Permutation_Forall; [exact Hp|]. apply scoreAll_empty_keyword.
Qed.

End WithSort.

(** ** The scorer *)

(** C8: the first three tiers, each under the condition that no earlier
    tier applies: an empty keyword scores 1.0; a keyword equal to the text
    after lower-casing scores 1.0; a non-empty keyword that, after
    lower-casing, is a prefix of the text and not the whole of it scores
    0.95. *)
Theorem first_three_tiers :
  (forall T, calculateRelevance T [] = 1.0%Q)
  /\ (forall T K, ToLower T = ToLower K -> calculateRelevance T K = 1.0%Q)
  /\ (forall T K,
        K <> [] -> ToLower T <> ToLower K ->
        HasPrefix (ToLower T) (ToLower K) = true ->
        calculateRelevance T K = 0.95%Q).
Proof.
  repeat split.
  - intros T K H. unfold calculateRelevance. destruct K; [reflexivity|].
    now rewrite H, eqb_refl.
  - intros T K HK Hne Hp. unfold calculateRelevance.
    destruct K; [congruence|].
    apply eqb_neq in Hne. now rewrite Hne, Hp.
Qed.

Lemma not_prefix_not_equal (s t : gostring) :
  HasPrefix s t = false -> eqb s t = false.
Proof.
  intros H. apply eqb_neq. intros ->. now rewrite HasPrefix_refl in H.
Qed.

Lemma not_Contains_not_prefix (s t : gostring) :
  Contains s t = false -> HasPrefix s t = false.
Proof.
  intros H. destruct (HasPrefix s t) eqn:E; [|reflexivity].
  now rewrite (Contains_prefix s t E) in H.
Qed.

(** The substring tier as the code computes it: the byte before the first
    occurrence of the keyword, read as a code point of its own, decides
    between 0.9 and 0.8. *)
Lemma substring_tier (T K : gostring) :
  K <> [] ->
  HasPrefix (ToLower T) (ToLower K) = false ->
  Contains (ToLower T) (ToLower K) = true ->
  (0 < Index (ToLower T) (ToLower K))%Z
  /\ calculateRelevance T K
     = let prevChar :=
         rune_of_byte
           (nth (Z.to_nat (Index (ToLower T) (ToLower K) - 1)) (ToLower T) x00)
       in if IsSpace prevChar || IsPunct prevChar then 0.9%Q else 0.8%Q.
Proof.
  intros HK Hp Hc.
  assert (Hpos : (0 < Index (ToLower T) (ToLower K))%Z).
  { unfold Contains in Hc. apply Z.leb_le in Hc.
    destruct (Z.eq_dec (Index (ToLower T) (ToLower K)) 0) as [E|E]; [|lia].
    apply Index_zero in E. congruence. }
  split; [exact Hpos|].
  unfold calculateRelevance. destruct K; [congruence|].
  rewrite (not_prefix_not_equal _ _ Hp), Hp, Hc.
  apply Z.ltb_lt in Hpos. rewrite Hpos. reflexivity.
Qed.

Lemma findWord_firstMatch (kw : gostring) (qws : list gostring) :
  findWord kw qws
  = match firstMatch kw qws with
    | Some qw => if eqb qw kw then ExactWord else PartialWord
    | None => NoWord
    end.
Proof.
  unfold firstMatch. induction qws as [|qw qws IH]; simpl; [reflexivity|].
  destruct (eqb qw kw) eqn:E; simpl; [now rewrite E|].
  destruct (Contains qw kw); [now rewrite E | exact IH].
Qed.

Lemma firstMatch_None (kw : gostring) (qws : list gostring) :
  firstMatch kw qws = None
  <-> forall qw, In qw qws -> qw <> kw /\ Contains qw kw = false.
Proof.
  unfold firstMatch. induction qws as [|qw qws IH]; simpl.
  - split; [intros _ q [] | reflexivity].
  - destruct (eqb qw kw) eqn:E; simpl.
    + split; [discriminate|]. intros H.
      destruct (H qw (or_introl eq_refl)) as [Hne _].
      apply eqb_eq in E. contradiction.
    + destruct (Contains qw kw) eqn:C.
      * split; [discriminate|]. intros H.
        destruct (H qw (or_introl eq_refl)) as [_ Hc]. congruence.
      * rewrite IH. apply eqb_neq in E. split.
        -- intros H q [<- | Hq]; auto.
        -- intros H q Hq. apply H. now right.
Qed.


Lemma countWords_missing (kws qws : list gostring) (m e : Z) :
  (exists kw, In kw kws /\ firstMatch kw qws = None) ->
  countWords kws qws m e = None.
Proof.
  revert m e; induction kws as [|kw kws IH]; intros m e [k [Hin Hk]].
  - destruct Hin.
  - simpl. rewrite findWord_firstMatch.
    destruct (firstMatch kw qws) as [qw|] eqn:E; [|reflexivity].
    destruct Hin as [-> | Hin]; [congruence|].
    destruct (eqb qw kw); apply IH; now exists k.
Qed.

Lemma countWords_all (kws qws : list gostring) (m e : Z) :
  (forall kw, In kw kws -> exists qw, firstMatch kw qws = Some qw) ->
  countWords kws qws m e
  = Some ((m + partial_count kws qws)%Z, (e + exact_count kws qws)%Z).
Proof.
  unfold partial_count, exact_count.
  revert m e; induction kws as [|kw kws IH]; intros m e H.
  - simpl. now rewrite !Z.add_0_r.
  - simpl. rewrite findWord_firstMatch.
    destruct (H kw (or_introl eq_refl)) as [qw Hqw]. rewrite Hqw.
    destruct (eqb qw kw); simpl negb; cbv iota; rewrite IH
      by (intros k Hk; apply H; now right);
      simpl length; f_equal; f_equal; lia.
Qed.



(** When every keyword word is matched the two counters add up to the
    number of keyword words, so the score is 0.7 + 0.1 * exact. *)
Lemma counts_total (kws qws : list gostring) :
  (forall kw, In kw kws -> exists qw, firstMatch kw qws = Some qw) ->
  (partial_count kws qws + exact_count kws qws = Z.of_nat (length kws))%Z.
Proof.
  unfold partial_count, exact_count. induction kws as [|kw kws IH]; intros H.
  - reflexivity.
  - destruct (H kw (or_introl eq_refl)) as [qw Hqw].
    assert (IH' := IH (fun k Hk => H k (or_intror Hk))).
    simpl filter. rewrite Hqw.
    destruct (eqb qw kw); simpl negb; cbv iota; simpl length; lia.
Qed.

End Properties.

(** ** The program on the scenarios *)

(** What a search scores: the result's own [Title], which is the cleaned
    title of a record between a space and a newline. *)
Lemma returned_scores (golib : GoLib) (allQuestions : gomap QuestionItem.t)
    (config : SearchConfig.t) (rs : list Result.t) :
  SortContract golib ->
  searchQuestions allQuestions config = Returned rs ->
  Forall (fun r =>
            Result.Relevance r
            = calculateRelevance (Result.Title r) (SearchConfig.Keyword config)
            /\ exists q, In q (map snd allQuestions)
                 /\ Result.Title r
                    = go " " ++ cleanText (QuestionItem.Title q) ++ [x0a]) rs.
Proof.
  intros Hsort H. apply searchQuestions_Returned in H as [category [Hsel ->]].
  assert (Hall : Forall (fun r =>
            Result.Relevance r
            = calculateRelevance (Result.Title r) (SearchConfig.Keyword config)
            /\ exists q, In q (map snd allQuestions)
                 /\ Result.Title r
                    = go " " ++ cleanText (QuestionItem.Title q) ++ [x0a])
            (rankCategory config category)).
  { eapply Permutation_Forall; [apply (rankCategory_perm Hsort)|].
    apply Forall_forall. intros r Hr.
    apply scoreAll_In in Hr as [Hrel [r0 [Hr0 Ht]]]. split; [exact Hrel|].
    apply in_map_iff in Hr0 as [q [<- Hq]]. exists q. split; [|exact Ht].
    rewrite selectCategory_lookup in Hsel.
    destruct (requestedName config) as [k|]; [|discriminate].
    simpl in Hsel. injection Hsel as Hl. apply lookup_In in Hl.
    destruct (indexed_bucket (map snd allQuestions)
                (getQuestionCategories allQuestions) k category
                (getQuestionCategories_indexed allQuestions) Hl)
      as [_ [Hqs _]].
    rewrite Hqs in Hq. now apply ofType_In in Hq. }
  destruct (SearchConfig.Keyword config); [exact Hall|].
  apply Forall_forall. intros r Hr. apply filterAndCap_incl in Hr as [Hr _].
  rewrite Forall_forall in Hall. now apply Hall.
Qed.

(** A recognized type without a bucket leaves [category] nil, and reading
    [category.Questions] panics. *)
Lemma missing_bucket_panics (golib : GoLib) (allQuestions : gomap QuestionItem.t)
    (config : SearchConfig.t) (k : gostring) :
  requestedName config = Some k ->
  ofType k (map snd allQuestions) = [] ->
  searchQuestions allQuestions config = Panicked.
Proof.
  intros Hk Hempty. unfold searchQuestions.
  rewrite selectCategory_lookup, Hk. simpl.
  rewrite (ix_lookup _ _ (getQuestionCategories_indexed allQuestions) k).
  now rewrite Hempty.
Qed.

(** C1, on scenario A: the scorer gives 0.95 on the normalized title, but the
    search scores the display title, where the keyword is no prefix: it
    follows the leading space, and the score is 0.9. *)
Theorem scenarioA_scored_on_display_title :
  cleanText (go "计算机网络基础概念") = go "计算机网络基础概念"
  /\ @calculateRelevance goSmall (go "计算机网络基础概念") (go "计算机网络")
     = 0.95%Q
  /\ exists r,
       @searchQuestions goSmall scenarioA
         (request (go "计算机网络") (go "single_choice"))
       = Returned [r]
       /\ Result.Title r = go " 计算机网络基础概念" ++ [x0a]
       /\ Result.Relevance r = 0.9%Q.
Proof.
  split; [vm_compute; reflexivity|]. split; [vm_compute; reflexivity|].
  eexists. split; [vm_compute; reflexivity|]. split; reflexivity.
Qed.

(** C2, on a corpus without single-choice questions, and on an empty one:
    the search does not return an empty list, it panics. *)
Theorem search_in_empty_category_panics :
  @searchQuestions goSmall onlyMultiChoice
    (request (go "操作系统") (go "single_choice"))
  = Panicked
  /\ @searchQuestions goSmall [] (request [] (go "determine")) = Panicked.
Proof. split; vm_compute; reflexivity. Qed.



(** C5, on a title whose keyword follows a full-width comma: the byte before
    the match is 0x8C, the last byte of the comma's encoding, which is
    neither white space nor punctuation as a code point, and the score is 0.8.
    And on a title whose keyword follows U+4E3B, an ideograph whose encoding
    ends in 0xBB: read as U+00BB that byte is punctuation, and the score is
    0.9. *)
Theorem boundary_check_reads_a_byte :
  go "你好，世界" = go "你好" ++ EncodeRune 65292%Z ++ go "世界"
  /\ Index (go "你好，世界") (go "世界") = 9%Z
  /\ nth 8 (go "你好，世界") x00 = x8c
  /\ @calculateRelevance goSmall (go "你好，世界") (go "世界") = 0.8%Q
  /\ (exists r,
        @searchQuestions goSmall commaTitle
          (request (go "世界") (go "single_choice"))
        = Returned [r]
        /\ Result.Relevance r = 0.8%Q)
  /\ go "主机" = EncodeRune 20027%Z ++ go "机"
  /\ @calculateRelevance goSmall (go "主机") (go "机") = 0.9%Q.
Proof.
  repeat split; try (vm_compute; reflexivity).
  eexists. split; [vm_compute; reflexivity | reflexivity].
Qed.



(** The theorem of C7 at scenario C. *)
Lemma threshold_cap_witness :
  exists rs,
    @searchQuestions goSmall scenarioC
      (request (go "操作系统") (go "single_choice"))
    = Returned rs
    /\ Forall (fun r => (0.5 < Result.Relevance r)%Q) rs
    /\ length rs <= 20.
Proof.
  eexists. split; [vm_compute; reflexivity|].
  refine (proj1 (@threshold_cap_and_empty_keyword goSmall goSmall_contract
                   scenarioC (request (go "操作系统") (go "single_choice"))
                   _ _) _).
  - vm_compute; reflexivity.
  - discriminate.
Defined.

(** The theorem of C8 at one text and three keywords. *)
Lemma first_three_tiers_witness :
  @calculateRelevance goSmall (go "Hello") [] = 1.0%Q
  /\ @calculateRelevance goSmall (go "Hello") (go "hELLO") = 1.0%Q
  /\ @calculateRelevance goSmall (go "Hello") (go "HE") = 0.95%Q.
Proof.
  destruct (@first_three_tiers goSmall) as [H1 [H2 H3]].
  split; [apply H1|]. split; [apply H2; vm_compute; reflexivity|].
  apply H3; [discriminate | vm_compute; discriminate | vm_compute; reflexivity].
Defined.

(** C9: four keyword words, each equal to a text word, in an order in which
    the keyword is no substring of the text: 0.7 + 4 * 0.1 = 1.1. *)
Theorem token_tier_exceeds_one :
  Contains (ToLower (GoLib := goSmall) (go "d c b a"))
           (ToLower (GoLib := goSmall) (go "a b c d")) = false
  /\ exact_count (Fields (go "a b c d")) (Fields (go "d c b a")) = 4%Z
  /\ (1.0 < @calculateRelevance goSmall (go "d c b a") (go "a b c d"))%Q.
Proof. repeat split; vm_compute; reflexivity. Qed.

(** ** Further properties of the scorer *)

Section ScorerMore.

Context {golib : GoLib}.

(** The token tier, once the earlier tiers are out of the way. *)
Lemma token_tier_unfold (T K : gostring) :
  K <> [] ->
  Contains (ToLower T) (ToLower K) = false ->
  calculateRelevance T K
  = match Fields (ToLower K) with
    | [] => 0%Q
    | _ =>
        match countWords (Fields (ToLower K)) (Fields (ToLower T)) 0 0 with
        | None => 0.3%Q
        | Some (m, e) =>
            (inject_Z (m + e)
             / inject_Z (Z.of_nat (length (Fields (ToLower K)))) * 0.7
             + inject_Z e * 0.1)%Q
        end
    end.
Proof.
  intros HK Hc. unfold calculateRelevance. destruct K; [congruence|].
  pose proof (not_Contains_not_prefix _ _ Hc) as Hp.
  now rewrite (not_prefix_not_equal _ _ Hp), Hp, Hc.
Qed.

Lemma firstMatch_found (kw qw : gostring) (qws : list gostring) :
  firstMatch kw qws = Some qw ->
  In qw qws /\ (qw = kw \/ Contains qw kw = true).
Proof.
  unfold firstMatch. intros H. apply find_some in H as [Hin Hm].
  split; [exact Hin|]. apply orb_true_iff in Hm as [Hm | Hm].
  - left. now apply eqb_eq.
  - now right.
Qed.

Lemma matched_or_missing (kws qws : list gostring) :
  (forall kw, In kw kws -> exists qw, firstMatch kw qws = Some qw)
  \/ (exists kw, In kw kws /\ firstMatch kw qws = None).
Proof.
  induction kws as [|kw kws IH].
  - left. intros kw [].
  - destruct (firstMatch kw qws) as [qw|] eqn:E.
    + destruct IH as [IH | [k [Hk Hno]]].
      * left. intros k [<- | Hk]; [now exists qw | now apply IH].
      * right. exists k. split; [now right | exact Hno].
    + right. exists kw. split; [now left | exact E].
Qed.

Lemma exact_count_bounds (kws qws : list gostring) :
  (0 <= exact_count kws qws <= Z.of_nat (length kws))%Z.
Proof.
  unfold exact_count. split; [lia|].
  apply inj_le. apply filter_length_le.
Qed.

Lemma token_formula_value (n m e : Z) :
  (0 < n)%Z -> (m + e = n)%Z ->
  (inject_Z (m + e) / inject_Z n * 0.7 + inject_Z e * 0.1
   == 0.7 + 0.1 * inject_Z e)%Q.
Proof.
  intros Hn ->. 
  assert (Hnz : ~ (inject_Z n == 0)%Q).
  { unfold Qeq; simpl. lia. }
  field. exact Hnz.
Qed.

Lemma score_tier (T K : gostring) : tier T K (calculateRelevance T K).
Proof.
  destruct K as [|b K'] eqn:EK; [now apply tier_empty|].
  rewrite <- EK. assert (HK : K <> []) by (subst; discriminate).
  clear EK b K'.
  destruct (eqb (ToLower T) (ToLower K)) eqn:Eeq.
  { apply eqb_eq in Eeq.
    replace (calculateRelevance T K) with 1.0%Q.
    - now apply tier_equal.
    - unfold calculateRelevance. destruct K; [congruence|].
      now rewrite Eeq, eqb_refl. }
  destruct (HasPrefix (ToLower T) (ToLower K)) eqn:Ep.
  { replace (calculateRelevance T K) with 0.95%Q.
    - apply tier_prefix; auto. now apply eqb_neq.
    - unfold calculateRelevance. destruct K; [congruence|].
      now rewrite Eeq, Ep. }
  destruct (Contains (ToLower T) (ToLower K)) eqn:Ec.
  { destruct (substring_tier T K HK Ep Ec) as [_ ->]. cbv zeta.
    destruct (IsSpace _ || IsPunct _).
    - now apply tier_boundary.
    - now apply tier_inside. }
  rewrite (token_tier_unfold T K HK Ec).
  destruct (Fields (ToLower K)) as [|k ks] eqn:Ek; [now apply tier_no_word|].
  rewrite <- Ek.
  assert (Hne : Fields (ToLower K) <> []) by (rewrite Ek; discriminate).
  destruct (matched_or_missing (Fields (ToLower K)) (Fields (ToLower T)))
    as [Hall | [kw [Hkw Hno]]].
  - rewrite (countWords_all _ _ 0 0 Hall).
    apply tier_words; auto.
    + split; [exact Hne|]. intros kw Hkw.
      destruct (Hall kw Hkw) as [qw Hqw]. exists qw.
      now apply firstMatch_found.
    + rewrite !Z.add_0_l. apply token_formula_value.
      * destruct (Fields (ToLower K)); [congruence | simpl; lia].
      * now apply counts_total.
  - rewrite (countWords_missing _ _ 0 0 (ex_intro _ kw (conj Hkw Hno))).
    apply tier_missing; auto.
    intros [_ Hm]. destruct (Hm kw Hkw) as [qw [Hin Hq]].
    rewrite firstMatch_None in Hno. destruct (Hno qw Hin) as [Hne' Hc].
    destruct Hq; congruence.
Qed.

(** The two models of the scorer take the same branch, and off the formula
    of the token tier the float64 score is the binary64 value nearest to
    the rational one. *)
Lemma calculateRelevance64_agrees (T K : gostring) :
  calculateRelevance64 T K = nearest64 (calculateRelevance T K)
  \/ (K <> []
      /\ Contains (ToLower T) (ToLower K) = false
      /\ exists m e,
           countWords (Fields (ToLower K)) (Fields (ToLower T)) 0 0
           = Some (m, e)).
Proof.
  unfold calculateRelevance64, calculateRelevance.
  destruct K as [|b K']; [left; reflexivity|].
  set (K := b :: K').
  destruct (eqb (ToLower T) (ToLower K)); [left; reflexivity|].
  destruct (HasPrefix (ToLower T) (ToLower K)); [left; reflexivity|].
  destruct (Contains (ToLower T) (ToLower K)) eqn:Ec.
  { left. cbv zeta. destruct (_ && _); reflexivity. }
  cbv zeta.
  destruct (Fields (ToLower K)) as [|k ks] eqn:Ek; [left; reflexivity|].
  destruct (countWords (k :: ks) (Fields (ToLower T)) 0 0) as [[m e]|] eqn:Ew.
  - right. split; [discriminate|]. split; [reflexivity|]. now exists m, e.
  - left. reflexivity.
Qed.

(** X1: a score is above the threshold 0.5 exactly when there is no
    keyword, or the keyword occurs in the text after lower-casing, or the
    keyword has words and each of them is equal to, or contained in, a word
    of the text. *)
Theorem passes_threshold_iff (T K : gostring) :
  (0.5 < calculateRelevance T K)%Q
  <-> K = []
      \/ Contains (ToLower T) (ToLower K) = true
      \/ allWordsMatch (Fields (ToLower K)) (Fields (ToLower T)).
Proof.
  assert (He' : (0 <= inject_Z (exact_count (Fields (ToLower K))
                                  (Fields (ToLower T))))%Q)
    by (change 0%Q with (inject_Z 0); rewrite <- Zle_Qle;
        apply exact_count_bounds).
  split.
  - intros H. destruct (score_tier T K); auto.
    + right. left. apply Contains_prefix. rewrite H1. apply HasPrefix_refl.
    + right. left. now apply Contains_prefix.
    + lra.
    + lra.
  - intros H. destruct (score_tier T K) as [| | | | | |? ? ? Hno|];
      try lra.
    + destruct H as [H | [H | [H _]]]; congruence.
    + destruct H as [H | [H | H]]; congruence.
Qed.

(** X2: a score is 0, 0.3, or at least 0.7: no score lies strictly
    between 0.3 and 0.7, and none is negative. *)
Theorem score_gap (T K : gostring) :
  calculateRelevance T K = 0%Q
  \/ calculateRelevance T K = 0.3%Q
  \/ (0.7 <= calculateRelevance T K)%Q.
Proof.
  assert (He' : (0 <= inject_Z (exact_count (Fields (ToLower K))
                                  (Fields (ToLower T))))%Q)
    by (change 0%Q with (inject_Z 0); rewrite <- Zle_Qle;
        apply exact_count_bounds).
  destruct (score_tier T K); auto; right; right; lra.
Qed.

(** X3: a score exceeds 1.0 exactly in the token tier with four or more
    keyword words settled by an equal word of the text. *)
Theorem score_above_one_iff (T K : gostring) :
  (1 < calculateRelevance T K)%Q
  <-> K <> []
      /\ Contains (ToLower T) (ToLower K) = false
      /\ allWordsMatch (Fields (ToLower K)) (Fields (ToLower T))
      /\ (4 <= exact_count (Fields (ToLower K)) (Fields (ToLower T)))%Z.
Proof.
  split.
  - intros H. destruct (score_tier T K) as [| | | | | | |v HK Hc Hall Hv];
      try lra.
    split; [exact HK|]. split; [exact Hc|]. split; [exact Hall|].
    assert (H3 : (inject_Z 3 < inject_Z (exact_count (Fields (ToLower K))
                                           (Fields (ToLower T))))%Q)
      by (change (inject_Z 3) with 3%Q;
          generalize dependent (inject_Z (exact_count (Fields (ToLower K))
                                            (Fields (ToLower T))));
          intros x; intros; lra).
    rewrite <- Zlt_Qlt in H3. lia.
  - intros [HK [Hc [Hall He]]].
    destruct (score_tier T K)
      as [|? Heq|? ? Hp| | |? ? Hno| |v _ _ _ Hv]; try congruence.
    + rewrite Heq, (Contains_prefix _ _ (HasPrefix_refl _)) in Hc.
      discriminate.
    + rewrite (Contains_prefix _ _ Hp) in Hc. discriminate.
    + destruct Hall as [Hne _]. congruence.
    + rewrite Zle_Qle in He. change (inject_Z 4) with 4%Q in He.
      generalize dependent (inject_Z (exact_count (Fields (ToLower K))
                                        (Fields (ToLower T)))).
      intros x; intros; lra.
Qed.

Lemma countWords_perm (kws kws' qws : list gostring) (m e : Z) :
  Permutation kws kws' ->
  countWords kws qws m e = countWords kws' qws m e.
Proof.
  intros Hp. revert m e.
  induction Hp as [|x l l' Hp IH|x y l|l l' l'' H1 IH1 H2 IH2]; intros m e.
  - reflexivity.
  - simpl. destruct (findWord x qws); auto.
  - simpl. destruct (findWord x qws), (findWord y qws); auto.
  - now rewrite IH1.
Qed.

(** X4: in the token tier the order of the keyword's words does not
    matter: two keywords with the same words, neither of which occurs in the
    text as a whole, get the same score. *)
Theorem token_tier_word_order (T K K' : gostring) :
  K <> [] -> K' <> [] ->
  Contains (ToLower T) (ToLower K) = false ->
  Contains (ToLower T) (ToLower K') = false ->
  Permutation (Fields (ToLower K)) (Fields (ToLower K')) ->
  calculateRelevance T K = calculateRelevance T K'.
Proof.
  intros HK HK' Hc Hc' Hp.
  rewrite (token_tier_unfold T K HK Hc), (token_tier_unfold T K' HK' Hc').
  rewrite (countWords_perm _ _ (Fields (ToLower T)) 0 0 Hp).
  rewrite (Permutation_length Hp).
  destruct (Fields (ToLower K)) as [|k ks].
  - apply Permutation_nil in Hp. now rewrite Hp.
  - destruct (Fields (ToLower K')) as [|k' ks']; [|reflexivity].
    apply Permutation_sym, Permutation_nil in Hp. discriminate.
Qed.

End ScorerMore.

(** ** Further properties of the ranker *)

Lemma requestedName_Some (config : SearchConfig.t) (k : gostring) :
  requestedName config = Some k
  <-> In (SearchConfig.Type_ config) recognizedTypes
      /\ k = getQuestionTypeName (SearchConfig.Type_ config).
Proof.
  unfold requestedName, getQuestionTypeName, recognizedTypes.
  destruct (eqb _ (go "single_choice")) eqn:E1.
  { apply eqb_eq in E1. split.
    - intros [= <-]. split; [now left | reflexivity].
    - now intros [_ ->]. }
  destruct (eqb _ (go "choice")) eqn:E2.
  { apply eqb_eq in E2. split.
    - intros [= <-]. split; [right; now left | reflexivity].
    - now intros [_ ->]. }
  destruct (eqb _ (go "determine")) eqn:E3.
  { apply eqb_eq in E3. split.
    - intros [= <-]. split; [right; right; now left | reflexivity].
    - now intros [_ ->]. }
  apply eqb_neq in E1, E2, E3. split; [discriminate|].
  intros [[H | [H | [H | []]]] _]; congruence.
Qed.

Lemma requestedName_None (config : SearchConfig.t) :
  requestedName config = None
  <-> ~ In (SearchConfig.Type_ config) recognizedTypes.
Proof.
  destruct (requestedName config) as [k|] eqn:E.
  - apply requestedName_Some in E as [Hin _]. split; [discriminate | tauto].
  - split; [|reflexivity]. intros _ Hin.
    assert (H : requestedName config
                = Some (getQuestionTypeName (SearchConfig.Type_ config)))
      by (apply requestedName_Some; auto).
    congruence.
Qed.

Section RankerMore.

Context {golib : GoLib}.

Lemma searchQuestions_cases (allQuestions : gomap QuestionItem.t)
    (config : SearchConfig.t) :
  match requestedName config with
  | None =>
      searchQuestions allQuestions config = Failed (go "无效的题型选择")
  | Some _ =>
      match ofType (getQuestionTypeName (SearchConfig.Type_ config))
              (map snd allQuestions) with
      | [] => searchQuestions allQuestions config = Panicked
      | _ => exists rs, searchQuestions allQuestions config = Returned rs
      end
  end.
Proof.
  unfold searchQuestions. rewrite selectCategory_lookup.
  destruct (requestedName config) as [k|] eqn:Ek; simpl; [|reflexivity].
  apply requestedName_Some in Ek as [Hin ->].
  rewrite (ix_lookup _ _ (getQuestionCategories_indexed allQuestions)).
  destruct (ofType _ _); [reflexivity|].
  destruct (SearchConfig.Keyword config); eexists; reflexivity.
Qed.

Lemma ofType_nil_perm (k : gostring) (qs qs' : list QuestionItem.t) :
  Permutation qs qs' -> ofType k qs = [] -> ofType k qs' = [].
Proof.
  unfold ofType. intros Hp Hnil.
  destruct (filter _ qs') as [|q l] eqn:E; [reflexivity|].
  assert (Hin : In q (filter
                        (fun q => eqb (getQuestionTypeName
                                         (QuestionItem.Type_ q)) k) qs')).
  { rewrite E. now left. }
  apply filter_In in Hin as [Hin Hq].
  apply (Permutation_in _ (Permutation_sym Hp)) in Hin.
  assert (Hin' : In q (filter
                         (fun q => eqb (getQuestionTypeName
                                          (QuestionItem.Type_ q)) k) qs)).
  { apply filter_In. now split. }
  rewrite Hnil in Hin'. destruct Hin'.
Qed.

(** Whether a search fails, panics or returns does not depend on the order
    in which the entries of the map are visited. *)
Lemma searchQuestions_outcome_perm (a b : gomap QuestionItem.t)
    (config : SearchConfig.t) :
  Permutation a b ->
  match searchQuestions a config with
  | Failed err => searchQuestions b config = Failed err
  | Panicked => searchQuestions b config = Panicked
  | Returned _ => exists rs, searchQuestions b config = Returned rs
  end.
Proof.
  intros Hp.
  pose proof (searchQuestions_cases a config) as Ha.
  pose proof (searchQuestions_cases b config) as Hb.
  assert (Hp' : Permutation (map snd a) (map snd b))
    by now apply Permutation_map.
  destruct (requestedName config).
  - destruct (ofType _ (map snd a)) as [|q l] eqn:Ea.
    + rewrite (ofType_nil_perm _ _ _ Hp' Ea) in Hb. now rewrite Ha.
    + destruct Ha as [rs ->].
      destruct (ofType _ (map snd b)) as [|q' l'] eqn:Eb; [|exact Hb].
      rewrite (ofType_nil_perm _ _ _ (Permutation_sym Hp') Eb) in Ea.
      discriminate.
  - now rewrite Ha.
Qed.

(** A call of [searchQuestions] reads the file first; when the file loads,
    the call comes to what the search on the loaded questions comes to. *)
Lemma searchQuestionsFromFile_cases (machine : Machine.t)
    (config : SearchConfig.t) :
  match readFile (Machine.Unmarshal machine) (Machine.RawFile machine) with
  | Exited => searchQuestionsFromFile machine config = ProcessExit
  | Loaded allQuestions =>
      match requestedName config with
      | None =>
          searchQuestionsFromFile machine config
          = Done (Failed (go "无效的题型选择"))
      | Some _ =>
          match ofType (getQuestionTypeName (SearchConfig.Type_ config))
                  (map snd allQuestions) with
          | [] => searchQuestionsFromFile machine config = Done Panicked
          | _ => exists rs,
                   searchQuestionsFromFile machine config = Done (Returned rs)
          end
      end
  end.
Proof.
  unfold searchQuestionsFromFile.
  destruct (readFile _ _) as [allQuestions|]; [|reflexivity].
  pose proof (searchQuestions_cases allQuestions config) as H.
  destruct (requestedName config); [|now rewrite H].
  destruct (ofType _ _); [now rewrite H|].
  destruct H as [rs ->]. now exists rs.
Qed.

(** X5: the four outcomes of a call of [searchQuestions].  The process
    ends exactly when [readFile] ends it, whatever the type label, since
    the file is read before the type is looked at.  When the file loads,
    the call fails, with the one error text, exactly for a type label
    outside the three recognized ones; it panics exactly for a recognized
    label under whose display name no record is filed; it returns
    otherwise. *)
Theorem searchQuestions_outcomes (machine : Machine.t)
    (config : SearchConfig.t) :
  let type_ := SearchConfig.Type_ config in
  let file :=
    readFile (Machine.Unmarshal machine) (Machine.RawFile machine) in
  (searchQuestionsFromFile machine config = ProcessExit <-> file = Exited)
  /\ (forall err,
        searchQuestionsFromFile machine config = Done (Failed err)
        <-> (exists allQuestions, file = Loaded allQuestions)
            /\ ~ In type_ recognizedTypes
            /\ err = go "无效的题型选择")
  /\ (searchQuestionsFromFile machine config = Done Panicked
      <-> exists allQuestions,
            file = Loaded allQuestions
            /\ In type_ recognizedTypes
            /\ ofType (getQuestionTypeName type_) (map snd allQuestions) = [])
  /\ ((exists rs, searchQuestionsFromFile machine config = Done (Returned rs))
      <-> exists allQuestions,
            file = Loaded allQuestions
            /\ In type_ recognizedTypes
            /\ ofType (getQuestionTypeName type_) (map snd allQuestions)
               <> []).
Proof.
  intros type_ file.
  pose proof (searchQuestionsFromFile_cases machine config) as Hcases.
  fold type_ file in Hcases.
  destruct file as [allQuestions|] eqn:Ef.
  2:{ rewrite Hcases. split; [tauto|]. split; [|split].
      - intros err. split; [discriminate | intros [[a Ha] _]; discriminate].
      - split; [discriminate | intros [a [Ha _]]; discriminate].
      - split; [intros [rs Hrs]; discriminate
               | intros [a [Ha _]]; discriminate]. }
  destruct (requestedName config) as [k|] eqn:Ek.
  - apply requestedName_Some in Ek as [Hin _]. fold type_ in Hin.
    destruct (ofType (getQuestionTypeName type_) (map snd allQuestions))
      as [|q l] eqn:Eo.
    + rewrite Hcases. split; [split; discriminate|]. split; [|split].
      * intros err. split; [discriminate | tauto].
      * split; [intros _; now exists allQuestions | reflexivity].
      * split; [intros [rs Hrs]; discriminate|].
        intros [a [[= <-] [_ Hne]]]. congruence.
    + destruct Hcases as [rs ->]. split; [split; discriminate|].
      split; [|split].
      * intros err. split; [discriminate | tauto].
      * split; [discriminate|]. intros [a [[= <-] [_ Hnil]]]. congruence.
      * split; [|intros _; now exists rs].
        intros _. exists allQuestions. rewrite Eo.
        split; [reflexivity|]. split; [exact Hin | discriminate].
  - apply requestedName_None in Ek. fold type_ in Ek.
    rewrite Hcases. split; [split; discriminate|]. split; [|split].
    + intros err. split.
      * intros [= <-]. split; [now exists allQuestions | now split].
      * now intros [_ [_ ->]].
    + split; [discriminate | intros [a [_ [Hin _]]]; contradiction].
    + split; [intros [rs Hrs]; discriminate
             | intros [a [_ [Hin _]]]; contradiction].
Qed.


Lemma selected_category (allQuestions : gomap QuestionItem.t)
    (config : SearchConfig.t) (category : QuestionCategory.t) :
  selectCategory config (getQuestionCategories allQuestions)
  = Some (Some category) ->
  QuestionCategory.Questions category
  = ofType (getQuestionTypeName (SearchConfig.Type_ config))
      (map snd allQuestions).
Proof.
  rewrite selectCategory_lookup.
  destruct (requestedName config) as [k|] eqn:Ek; [|discriminate].
  apply requestedName_Some in Ek as [_ ->]. simpl. intros [= H].
  apply lookup_In in H.
  now destruct (indexed_bucket _ _ _ _
                  (getQuestionCategories_indexed allQuestions) H)
    as [_ [Hq _]].
Qed.

Lemma scored_candidates (allQuestions : gomap QuestionItem.t)
    (config : SearchConfig.t) (category : QuestionCategory.t) :
  selectCategory config (getQuestionCategories allQuestions)
  = Some (Some category) ->
  scoreAll (SearchConfig.Keyword config)
    (map (makeResult config) (QuestionCategory.Questions category))
  = candidates allQuestions config.
Proof.
  intros H. rewrite (selected_category _ _ _ H).
  unfold candidates, scoreAll. now rewrite map_map.
Qed.


End RankerMore.

(** ** The scorer on display titles *)

Lemma space_is_white : In [x20] spaceEncodings.
Proof.
  assert (H : existsb (eqb [x20]) spaceEncodings = true)
    by (vm_compute; reflexivity).
  apply existsb_exists in H as [p [Hin Hp]]. apply eqb_eq in Hp. now subst.
Qed.

Lemma trimmed_no_leading_space (K : gostring) :
  TrimSpace K = K -> HasPrefix K [x20] = false.
Proof.
  intros H.
  assert (Hs : stripOne spaceEncodings K = None).
  { rewrite <- H. unfold TrimSpace.
    destruct (TrimRight_prefix (TrimLeft K)) as [r Hr].
    apply stripOne_None_prefix with (r := r). rewrite <- Hr.
    apply TrimLeft_done. }
  rewrite stripOne_None in Hs. apply Hs. apply space_is_white.
Qed.

Lemma lowerASCII_leading_space (s : gostring) :
  HasPrefix (lowerASCII s) [x20] = HasPrefix s [x20].
Proof.
  destruct s as [|b s]; [reflexivity|]. simpl.
  rewrite !HasPrefix_cons, !HasPrefix_nil. f_equal.
  destruct b; reflexivity.
Qed.

Lemma lowerASCII_nil (s : gostring) : lowerASCII s = [] -> s = [].
Proof. destruct s; [reflexivity | discriminate]. Qed.

Section DisplayTitles.

Context {golib : GoLib}.

(** What [strings.ToLower] is known to do to the ends of a string: the
    result starts with a space exactly when the argument does, and is empty
    only for the empty string. *)
Hypothesis lower_leading_space :
  forall s, HasPrefix (ToLower s) [x20] = HasPrefix s [x20].
Hypothesis lower_nonempty : forall s, ToLower s = [] -> s = [].

Lemma display_title_no_prefix (title K : gostring) :
  K <> [] -> TrimSpace K = K ->
  HasPrefix (ToLower (displayTitle title)) (ToLower K) = false.
Proof.
  intros HK Htrim.
  pose proof (trimmed_no_leading_space K Htrim) as HKs.
  rewrite <- lower_leading_space in HKs.
  assert (HD : HasPrefix (ToLower (displayTitle title)) [x20] = true)
    by (rewrite lower_leading_space; reflexivity).
  destruct (ToLower K) as [|c k] eqn:Ek.
  { apply lower_nonempty in Ek. congruence. }
  destruct (ToLower (displayTitle title)) as [|d t]; [reflexivity|].
  rewrite HasPrefix_cons in *. rewrite HasPrefix_nil, andb_true_r in HKs, HD.
  apply Byte.byte_dec_bl in HD. subst d.
  destruct (Byte.eqb x20 c) eqn:E; [|reflexivity].
  apply Byte.byte_dec_bl in E. subst c.
  now rewrite (Byte.byte_dec_lb eq_refl) in HKs.
Qed.

(** X7: the exact and the prefix tier are out of reach of a search.  For a
    keyword that is not empty and has no white space around it, the score
    of a display title is 0.9 or 0.8, or the keyword does not occur in the
    title and the token tier decides; it is never 0.95. *)
Theorem display_title_never_exact_or_prefix (title K : gostring) :
  K <> [] -> TrimSpace K = K ->
  let score := calculateRelevance (displayTitle title) K in
  (score = 0.9%Q \/ score = 0.8%Q
   \/ Contains (ToLower (displayTitle title)) (ToLower K) = false)
  /\ ~ (score == 0.95)%Q.
Proof.
  intros HK Htrim score.
  pose proof (display_title_no_prefix title K HK Htrim) as Hp.
  pose proof (score_tier (displayTitle title) K) as Ht. fold score in Ht.
  destruct Ht as [Hnil|_ Heq|_ _ Hpre| | | | |v _ Hc _ Hv].
  - congruence.
  - rewrite Heq, HasPrefix_refl in Hp. discriminate.
  - congruence.
  - split; [now left | intros Hq; vm_compute in Hq; discriminate].
  - split; [right; now left | intros Hq; vm_compute in Hq; discriminate].
  - split; [right; now right | intros Hq; vm_compute in Hq; discriminate].
  - split; [right; now right | intros Hq; vm_compute in Hq; discriminate].
  - split; [right; now right|]. intros Hq. rewrite Hv in Hq.
    revert Hq.
    generalize (exact_count (Fields (ToLower K))
                  (Fields (ToLower (displayTitle title)))).
    intros e Hq.
    assert (He : (inject_Z e == 5 # 2)%Q).
    { generalize dependent (inject_Z e). intros x Hx. lra. }
    unfold Qeq in He. simpl in He. lia.
Qed.

End DisplayTitles.

(** ** The search handler *)

Lemma fieldsFrom_skip (k : nat) (cur s : gostring) :
  fieldsFrom k cur s = fieldsFrom 0 cur (skipn k s).
Proof.
  revert k; induction s as [|b s IH]; intros k.
  - now rewrite skipn_nil.
  - destruct k as [|k]; [reflexivity|]. simpl skipn.
    change (fieldsFrom (S k) cur (b :: s)) with (fieldsFrom k cur s).
    apply IH.
Qed.

Lemma fieldsFrom_cur (k : nat) (cur s : gostring) :
  cur <> [] -> fieldsFrom k cur s <> [].
Proof.
  revert k cur; induction s as [|b s IH]; intros k cur Hcur.
  - simpl. destruct cur; [congruence | discriminate].
  - simpl. destruct k as [|k]; [|now apply IH].
    destruct (spaceWidth (b :: s)).
    + apply IH. destruct cur; discriminate.
    + destruct cur; [congruence | discriminate].
Qed.

Lemma spaceWidth_strip (s : gostring) :
  match stripOne spaceEncodings s with
  | Some s' => exists k, spaceWidth s = S k /\ skipn (S k) s = s'
  | None => spaceWidth s = 0
  end.
Proof.
  unfold spaceWidth. destruct (stripOne spaceEncodings s) as [s'|] eqn:E;
    [|reflexivity].
  apply stripOne_Some in E as [p [Hp ->]].
  pose proof spaceEncodings_nonempty as Hne.
  rewrite Forall_forall in Hne. specialize (Hne p Hp).
  destruct p as [|b p]; [congruence|].
  exists (length p). split.
  - rewrite length_app. cbn [length]. lia.
  - change (S (length p)) with (length (b :: p)).
    now rewrite skipn_app, skipn_all, Nat.sub_diag.
Qed.

(** A string without fields is trimmed to the empty string. *)
Lemma Fields_nil_TrimSpace (s : gostring) : Fields s = [] -> TrimSpace s = [].
Proof.
  assert (H : forall n s, length s <= n -> fieldsFrom 0 [] s = [] ->
                          stripAll spaceEncodings n s = []).
  { clear s. induction n as [|n IH]; intros s Hlen Hf.
    - destruct s; [reflexivity | simpl in Hlen; lia].
    - destruct s as [|b s]; [reflexivity|].
      pose proof (spaceWidth_strip (b :: s)) as Hw.
      cbn [stripAll]. cbn [fieldsFrom] in Hf.
      destruct (stripOne spaceEncodings (b :: s)) as [s'|] eqn:E.
      + destruct Hw as [k [Hk Hs']]. rewrite Hk in Hf. cbn [flush app] in Hf.
        rewrite fieldsFrom_skip in Hf. cbn [skipn] in Hs'. rewrite Hs' in Hf.
        apply IH; [|exact Hf].
        rewrite <- Hs'. rewrite length_skipn. cbn [length] in Hlen. lia.
      + rewrite Hw in Hf. exfalso. revert Hf. apply fieldsFrom_cur.
        discriminate. }
  intros Hf. unfold TrimSpace, TrimLeft.
  rewrite (H (length s) s (le_n _) Hf). reflexivity.
Qed.

Lemma text_differs (a b err : gostring) :
  eqb (firstn (length a) b) a = false -> a ++ err <> b.
Proof.
  intros H E. subst b. rewrite firstn_app, Nat.sub_diag, firstn_all in H.
  simpl in H. rewrite app_nil_r, eqb_refl in H. discriminate.
Qed.

Section HandlerMore.

Context {golib : GoLib}.

Lemma executeTemplate_Page (site : Site.t) (d data : TemplateData.t)
    (failure : option gostring) :
  executeTemplate site d = Page data failure ->
  Site.ParseFiles site = None /\ data = d.
Proof.
  unfold executeTemplate. destruct (Site.ParseFiles site); [discriminate|].
  now intros [= <- _].
Qed.

Lemma executeTemplate_not_Crash (site : Site.t) (d : TemplateData.t) :
  executeTemplate site d <> Crash.
Proof.
  unfold executeTemplate. destruct (Site.ParseFiles site); discriminate.
Qed.

Lemma executeTemplate_Error (site : Site.t) (d : TemplateData.t)
    (text : gostring) (code : Z) :
  executeTemplate site d = Error text code ->
  exists err, text = go "模板解析错误: " ++ err.
Proof.
  unfold executeTemplate. destruct (Site.ParseFiles site) as [err|];
    [|discriminate].
  intros [= <- _]. now exists err.
Qed.

(** X8: a page that reports a search shows what [searchQuestions] returned
    for the trimmed keyword and the chosen type: the count is the number of
    results, at most 20 with a keyword, and the message is a warning exactly
    when there is no result, a success otherwise. *)
Theorem search_page_shows_search (site : Site.t) (r : Request.t)
    (data : TemplateData.t) (failure : option gostring) :
  handleSearch site r = Page data failure ->
  TemplateData.SearchPerformed data = true ->
  searchQuestions (Site.allQuestions site) (configOf r)
  = Returned (TemplateData.Results data)
  /\ TemplateData.Keyword data
     = TrimSpace (Request.FormValue r (go "keyword"))
  /\ TemplateData.SelectedType data
     = Request.FormValue r (go "question_type")
  /\ TemplateData.ResultCount data
     = Z.of_nat (length (TemplateData.Results data))
  /\ (TemplateData.Keyword data <> [] ->
      (TemplateData.ResultCount data <= 20)%Z)
  /\ (TemplateData.MessageType data = go "warning"
      <-> TemplateData.Results data = [])
  /\ (TemplateData.MessageType data = go "success"
      <-> TemplateData.Results data <> []).
Proof.
  unfold handleSearch. fold (configOf r).
  destruct (negb (eqb (Request.Method r) (go "POST"))); [discriminate|].
  destruct (Request.ParseForm r); [discriminate|].
  destruct (SearchConfig.Type_ (configOf r)) as [|b t] eqn:Et.
  { intros H. apply executeTemplate_Page in H as [_ ->]. discriminate. }
  destruct (searchQuestions (Site.allQuestions site) (configOf r))
    as [questions| |] eqn:Es; try discriminate.
  intros H _. apply executeTemplate_Page in H as [_ ->]. simpl.
  split; [reflexivity|]. split; [reflexivity|]. split; [symmetry; exact Et|].
  split; [reflexivity|]. split.
  - intros Hk. apply searchQuestions_Returned in Es as [category [_ ->]].
    simpl in *. destruct (TrimSpace _); [congruence|].
    pose proof (filterAndCap_length (rankCategory (configOf r) category)).
    lia.
  - destruct questions; split; split; try discriminate; try reflexivity;
      congruence.
Qed.

(** The failures of the handler once the questions are loaded: it panics
    exactly on a POST whose form parses and whose type is recognized but
    has no record filed under its display name; it answers 500 with the
    text of an invalid type exactly on a POST whose form parses and whose
    type is neither empty nor recognized. *)
Lemma handleSearch_on_loaded (site : Site.t) (r : Request.t) :
  let type_ := Request.FormValue r (go "question_type") in
  (handleSearch site r = Crash
   <-> Request.Method r = go "POST"
       /\ Request.ParseForm r = None
       /\ In type_ recognizedTypes
       /\ ofType (getQuestionTypeName type_)
            (map snd (Site.allQuestions site)) = [])
  /\ (handleSearch site r = Error (go "搜索错误: 无效的题型选择") 500
      <-> Request.Method r = go "POST"
          /\ Request.ParseForm r = None
          /\ type_ <> []
          /\ ~ In type_ recognizedTypes).
Proof.
  intros type_. unfold handleSearch. fold (configOf r).
  change (SearchConfig.Type_ (configOf r)) with type_.
  pose proof (searchQuestions_cases (Site.allQuestions site) (configOf r))
    as Hcases.
  change (SearchConfig.Type_ (configOf r)) with type_ in Hcases.
  destruct (eqb (Request.Method r) (go "POST")) eqn:Em; simpl.
  2:{ apply eqb_neq in Em. split; (split; [discriminate | tauto]). }
  apply eqb_eq in Em.
  destruct (Request.ParseForm r) as [err|] eqn:Ef.
  { split; (split; [discriminate | intros [_ [H _]]; discriminate]). }
  destruct type_ as [|b t] eqn:Et.
  { split; split.
    - intros H. now apply executeTemplate_not_Crash in H.
    - intros [_ [_ [[H | [H | [H | []]]] _]]]; discriminate.
    - intros H. apply executeTemplate_Error in H as [e He].
      symmetry in He. exfalso.
      refine (text_differs _ _ _ _ He). reflexivity.
    - intros [_ [_ [H _]]]. congruence. }
  rewrite <- Et in *. assert (Hne : type_ <> []) by (rewrite Et; discriminate).
  destruct (requestedName (configOf r)) as [k|] eqn:Ek.
  - apply requestedName_Some in Ek as [Hin _].
    change (SearchConfig.Type_ (configOf r)) with type_ in Hin.
    destruct (ofType (getQuestionTypeName type_)
                (map snd (Site.allQuestions site))) as [|q l] eqn:Eo.
    + rewrite Hcases. split; split; auto; try discriminate.
      intros [_ [_ [_ H]]]. contradiction.
    + destruct Hcases as [rs ->]. split; split.
      * intros H. now apply executeTemplate_not_Crash in H.
      * intros [_ [_ [_ H]]]. discriminate.
      * intros H. apply executeTemplate_Error in H as [e He].
        symmetry in He. exfalso.
      refine (text_differs _ _ _ _ He). reflexivity.
      * intros [_ [_ [_ H]]]. contradiction.
  - apply requestedName_None in Ek.
    change (SearchConfig.Type_ (configOf r)) with type_ in Ek.
    rewrite Hcases. split; split; auto; try discriminate.
    intros [_ [_ [H _]]]. contradiction.
Qed.

(** When the file loads, the handler does what it does on the loaded
    questions. *)
Lemma handleSearchFromFile_Loaded (machine : Machine.t) (r : Request.t)
    (allQuestions : gomap QuestionItem.t) :
  readFile (Machine.Unmarshal machine) (Machine.RawFile machine)
  = Loaded allQuestions ->
  handleSearchFromFile machine r
  = Done (handleSearch (siteWith machine allQuestions) r).
Proof.
  intros Hf. unfold handleSearchFromFile, handleSearch, searchQuestionsFromFile.
  rewrite Hf.
  destruct (negb (eqb (Request.Method r) (go "POST"))); [reflexivity|].
  destruct (Request.ParseForm r); [reflexivity|].
  cbv zeta. cbn [SearchConfig.Type_ SearchConfig.Keyword].
  destruct (Request.FormValue r (go "question_type")) eqn:Et; [reflexivity|].
  cbn [Site.allQuestions siteWith].
  destruct (searchQuestions allQuestions _); reflexivity.
Qed.

(** When [readFile] ends the process, the handler ends with it on the one
    path that reads the file, and does not look at the file on the others. *)
Lemma handleSearchFromFile_Exited (machine : Machine.t) (r : Request.t) :
  readFile (Machine.Unmarshal machine) (Machine.RawFile machine) = Exited ->
  handleSearchFromFile machine r
  = if eqb (Request.Method r) (go "POST")
    then match Request.ParseForm r with
         | Some _ => Done (handleSearch (siteWith machine []) r)
         | None =>
             match Request.FormValue r (go "question_type") with
             | [] => Done (handleSearch (siteWith machine []) r)
             | _ => ProcessExit
             end
         end
    else Done (handleSearch (siteWith machine []) r).
Proof.
  intros Hf. unfold handleSearchFromFile, handleSearch, searchQuestionsFromFile.
  rewrite Hf.
  destruct (eqb (Request.Method r) (go "POST")); [|reflexivity].
  cbn [negb].
  destruct (Request.ParseForm r); [reflexivity|].
  cbv zeta. cbn [SearchConfig.Type_ SearchConfig.Keyword].
  destruct (Request.FormValue r (go "question_type")); reflexivity.
Qed.

(** X9: how [handleSearch] fails.  The process ends in [readFile] exactly
    on a POST whose form parses and names a type, recognized or not, when
    the file cannot be read or decoded.  The handler panics exactly on a
    POST whose form parses and whose type is recognized, when the file
    loads and holds no record under the type's display name.  It answers
    500 with the text of an invalid type exactly on a POST whose form
    parses and whose type is neither empty nor recognized, when the file
    loads. *)
Theorem handleSearch_failures (machine : Machine.t) (r : Request.t) :
  let type_ := Request.FormValue r (go "question_type") in
  let file :=
    readFile (Machine.Unmarshal machine) (Machine.RawFile machine) in
  (handleSearchFromFile machine r = ProcessExit
   <-> Request.Method r = go "POST"
       /\ Request.ParseForm r = None
       /\ type_ <> []
       /\ file = Exited)
  /\ (handleSearchFromFile machine r = Done Crash
      <-> Request.Method r = go "POST"
          /\ Request.ParseForm r = None
          /\ In type_ recognizedTypes
          /\ exists allQuestions,
               file = Loaded allQuestions
               /\ ofType (getQuestionTypeName type_) (map snd allQuestions)
                  = [])
  /\ (handleSearchFromFile machine r
      = Done (Error (go "搜索错误: 无效的题型选择") 500)
      <-> Request.Method r = go "POST"
          /\ Request.ParseForm r = None
          /\ type_ <> []
          /\ ~ In type_ recognizedTypes
          /\ exists allQuestions, file = Loaded allQuestions).
Proof.
  intros type_ file.
  destruct file as [allQuestions|] eqn:Ef; subst file.
  - rewrite (handleSearchFromFile_Loaded machine r allQuestions Ef).
    destruct (handleSearch_on_loaded (siteWith machine allQuestions) r)
      as [Hcrash Herror].
    cbv zeta in Hcrash, Herror. fold type_ in Hcrash, Herror.
    cbn [Site.allQuestions siteWith] in Hcrash.
    split; [|split].
    + split; [discriminate | intros [_ [_ [_ H]]]; discriminate].
    + split.
      * intros [= H]. apply Hcrash in H as [Hm [Hp [Hin Ho]]].
        repeat (split; [assumption|]). now exists allQuestions.
      * intros [Hm [Hp [Hin [a [[= <-] Ho]]]]]. f_equal. apply Hcrash. auto.
    + split.
      * intros [= H]. apply Herror in H as [Hm [Hp [Hne Hin]]].
        repeat (split; [assumption|]). now exists allQuestions.
      * intros [Hm [Hp [Hne [Hin _]]]]. f_equal. apply Herror. auto.
  - rewrite (handleSearchFromFile_Exited machine r Ef). fold type_.
    destruct (handleSearch_on_loaded (siteWith machine []) r)
      as [Hcrash Herror].
    cbv zeta in Hcrash, Herror. fold type_ in Hcrash, Herror.
    assert (Hstays :
              (Request.Method r = go "POST" /\ Request.ParseForm r = None
               /\ type_ <> [] -> False) ->
              (Done (handleSearch (siteWith machine []) r) = ProcessExit
               <-> Request.Method r = go "POST"
                   /\ Request.ParseForm r = None
                   /\ type_ <> []
                   /\ Exited = Exited)
              /\ (Done (handleSearch (siteWith machine []) r) = Done Crash
                  <-> Request.Method r = go "POST"
                      /\ Request.ParseForm r = None
                      /\ In type_ recognizedTypes
                      /\ exists allQuestions,
                           Exited = Loaded allQuestions
                           /\ ofType (getQuestionTypeName type_)
                                (map snd allQuestions) = [])
              /\ (Done (handleSearch (siteWith machine []) r)
                  = Done (Error (go "搜索错误: 无效的题型选择") 500)
                  <-> Request.Method r = go "POST"
                      /\ Request.ParseForm r = None
                      /\ type_ <> []
                      /\ ~ In type_ recognizedTypes
                      /\ exists allQuestions, Exited = Loaded allQuestions)).
    { intros Hno. split; [|split].
      - split; [discriminate | intros [Hm [Hp [Hne _]]]; exfalso; auto].
      - split; [|intros [_ [_ [_ [a [H _]]]]]; discriminate].
        intros [= H]. apply Hcrash in H as [Hm [Hp [Hin _]]].
        exfalso. apply Hno. repeat (split; [assumption|]).
        intros E. rewrite E in Hin.
        destruct Hin as [H | [H | [H | []]]]; discriminate.
      - split; [|intros [_ [_ [_ [_ [a H]]]]]; discriminate].
        intros [= H]. apply Herror in H as [Hm [Hp [Hne _]]].
        exfalso. auto. }
    destruct (eqb (Request.Method r) (go "POST")) eqn:Em.
    2:{ apply eqb_neq in Em. apply Hstays. tauto. }
    apply eqb_eq in Em.
    destruct (Request.ParseForm r) as [err|] eqn:Ep.
    { apply Hstays. intros [_ [H _]]. discriminate. }
    destruct type_ as [|b t] eqn:Et.
    { apply Hstays. intros [_ [_ H]]. congruence. }
    split; [|split].
    + split; [intros _|reflexivity].
      repeat (split; [auto; discriminate|]). reflexivity.
    + split; [discriminate|]. intros [_ [_ [_ [a [H _]]]]]. discriminate.
    + split; [discriminate|]. intros [_ [_ [_ [_ [a H]]]]]. discriminate.
Qed.

Section HandlerSorted.

Hypothesis sort_ok : SortContract golib.

(** X10: a keyword without a word, empty or all white space, is no
    keyword: the page of the search lists the whole category, one result
    for each record of the chosen type, each with score 1.0, and never
    reports an empty result. *)
Theorem blank_keyword_lists_category (site : Site.t) (r : Request.t)
    (data : TemplateData.t) (failure : option gostring) :
  Fields (Request.FormValue r (go "keyword")) = [] ->
  handleSearch site r = Page data failure ->
  TemplateData.SearchPerformed data = true ->
  TemplateData.Keyword data = []
  /\ Permutation (TemplateData.Results data)
       (candidates (Site.allQuestions site) (configOf r))
  /\ Forall (fun x => Result.Relevance x = 1.0%Q) (TemplateData.Results data)
  /\ TemplateData.Results data <> []
  /\ TemplateData.MessageType data = go "success".
Proof.
  intros Hblank. apply Fields_nil_TrimSpace in Hblank.
  unfold handleSearch. fold (configOf r).
  destruct (negb (eqb (Request.Method r) (go "POST"))); [discriminate|].
  destruct (Request.ParseForm r); [discriminate|].
  destruct (SearchConfig.Type_ (configOf r)) as [|b t] eqn:Et.
  { intros H. apply executeTemplate_Page in H as [_ ->]. discriminate. }
  destruct (searchQuestions (Site.allQuestions site) (configOf r))
    as [questions| |] eqn:Es; try discriminate.
  intros H _. apply executeTemplate_Page in H as [_ ->]. simpl.
  split; [exact Hblank|].
  apply searchQuestions_Returned in Es as [category [Hsel Hq]].
  assert (Hk : SearchConfig.Keyword (configOf r) = []) by exact Hblank.
  rewrite Hk in Hq. subst questions.
  pose proof (rankCategory_perm sort_ok (configOf r) category) as Hperm.
  assert (Hall : Forall (fun x => Result.Relevance x = 1.0%Q)
                   (rankCategory (configOf r) category)).
  { eapply Permutation_Forall; [exact Hperm|]. rewrite Hk.
    apply scoreAll_empty_keyword. }
  rewrite (scored_candidates _ _ _ Hsel) in Hperm.
  assert (Hne : rankCategory (configOf r) category <> []).
  { intros Hnil. rewrite Hnil in Hperm.
    apply Permutation_sym, Permutation_nil in Hperm.
    unfold candidates in Hperm. apply map_eq_nil in Hperm.
    rewrite <- (selected_category _ _ _ Hsel) in Hperm.
    rewrite selectCategory_lookup in Hsel.
    destruct (requestedName (configOf r)) as [k|]; [|discriminate].
    simpl in Hsel. injection Hsel as Hl. apply lookup_In in Hl.
    destruct (indexed_bucket _ _ _ _
                (getQuestionCategories_indexed (Site.allQuestions site)) Hl)
      as [_ [_ Hnonempty]].
    contradiction. }
  split; [now apply Permutation_sym|]. split; [exact Hall|].
  split; [exact Hne|].
  destruct (rankCategory (configOf r) category); [congruence | reflexivity].
Qed.

End HandlerSorted.

End HandlerMore.

(** ** Reading the file of questions *)

Lemma lookup_app {V : Type} (u : gostring) (a b : gomap V) :
  lookup u (a ++ b)
  = match lookup u a with
    | Some v => Some v
    | None => lookup u b
    end.
Proof.
  induction a as [|[k v] a IH]; simpl; [reflexivity|].
  destruct (eqb k u); [reflexivity | exact IH].
Qed.

Lemma mergeItem_lookup (allQuestions : gomap QuestionItem.t)
    (entry : gostring * QuestionItem.t) (u : gostring) :
  lookup u (mergeItem allQuestions entry)
  = match lookup u allQuestions with
    | Some v => Some v
    | None => lookup u [entry]
    end.
Proof.
  destruct entry as [k v]. unfold mergeItem. simpl.
  destruct (lookup k allQuestions) as [x|] eqn:Ek.
  - destruct (lookup u allQuestions) eqn:Eu; [reflexivity|].
    destruct (eqb k u) eqn:E; [|reflexivity].
    apply eqb_eq in E. congruence.
  - destruct (eqb k u) eqn:E.
    + apply eqb_eq in E. subst u. rewrite lookup_assign_same. now rewrite Ek.
    + apply eqb_neq in E. rewrite lookup_assign_other by exact E.
      now destruct (lookup u allQuestions).
Qed.

Lemma mergeItem_keys (allQuestions : gomap QuestionItem.t)
    (entry : gostring * QuestionItem.t) :
  NoDup (map fst allQuestions) ->
  NoDup (map fst (mergeItem allQuestions entry)).
Proof.
  intros H. destruct entry as [k v]. unfold mergeItem.
  destruct (lookup k allQuestions) eqn:Ek; [exact H|].
  rewrite keys_assign, Ek. apply NoDup_app; auto.
  - repeat constructor. intros [].
  - intros x Hx [<- | []]. now apply lookup_None in Ek.
Qed.

Lemma mergeLine_lookup (items allQuestions : gomap QuestionItem.t)
    (u : gostring) :
  lookup u (mergeLine allQuestions items)
  = match lookup u allQuestions with
    | Some v => Some v
    | None => lookup u items
    end.
Proof.
  unfold mergeLine. revert allQuestions.
  induction items as [|e items IH]; intros allQuestions; simpl fold_left.
  - now destruct (lookup u allQuestions).
  - rewrite IH, mergeItem_lookup.
    change (e :: items) with ([e] ++ items). rewrite (lookup_app u [e]).
    destruct (lookup u allQuestions); [reflexivity|].
    now destruct (lookup u [e]).
Qed.

Lemma mergeLine_keys (items allQuestions : gomap QuestionItem.t) :
  NoDup (map fst allQuestions) ->
  NoDup (map fst (mergeLine allQuestions items)).
Proof.
  unfold mergeLine. revert allQuestions.
  induction items as [|e items IH]; intros allQuestions H; simpl; [exact H|].
  apply IH. now apply mergeItem_keys.
Qed.

Lemma readLines_Loaded
    (Unmarshal : gostring -> option (gomap QuestionItem.t))
    (lines : list gostring) (allQuestions result : gomap QuestionItem.t) :
  readLines Unmarshal lines allQuestions = Loaded result ->
  NoDup (map fst allQuestions) ->
  NoDup (map fst result)
  /\ forall u,
      lookup u result
      = match lookup u allQuestions with
        | Some v => Some v
        | None => lookup u (ingested Unmarshal lines)
        end.
Proof.
  revert allQuestions.
  induction lines as [|line rest IH]; intros allQuestions H Hnd; simpl in *.
  - injection H as <-. split; [exact Hnd|]. intros u.
    now destruct (lookup u allQuestions).
  - destruct (TrimSpace line); [now apply IH|].
    destruct (Unmarshal line) as [items|]; [|discriminate].
    destruct (IH _ H (mergeLine_keys items allQuestions Hnd)) as [Hk Hl].
    split; [exact Hk|]. intros u.
    rewrite Hl, mergeLine_lookup, lookup_app.
    destruct (lookup u allQuestions); [reflexivity|].
    now destruct (lookup u items).
Qed.

(** X11: first write wins.  The loaded map has distinct uuids, and under
    each uuid it holds the item of the first entry with that uuid that the
    file holds, reading the lines in order; a later entry with the same uuid
    changes nothing. *)
Theorem readFile_first_write_wins
    (Unmarshal : gostring -> option (gomap QuestionItem.t))
    (content : gostring) (allQuestions : gomap QuestionItem.t) :
  readFile Unmarshal (Some content) = Loaded allQuestions ->
  NoDup (map fst allQuestions)
  /\ forall uuid,
      lookup uuid allQuestions
      = lookup uuid (ingested Unmarshal (Split content [x0a])).
Proof.
  unfold readFile. intros H.
  apply readLines_Loaded in H as [Hk Hl]; [|constructor].
  split; [exact Hk|]. intros uuid. apply Hl.
Qed.

Lemma readLines_Exited
    (Unmarshal : gostring -> option (gomap QuestionItem.t))
    (lines : list gostring) (allQuestions : gomap QuestionItem.t) :
  readLines Unmarshal lines allQuestions = Exited
  <-> exists line,
        In line lines /\ TrimSpace line <> [] /\ Unmarshal line = None.
Proof.
  revert allQuestions.
  induction lines as [|line rest IH]; intros allQuestions; simpl.
  - split; [discriminate | intros [l [[] _]]].
  - destruct (TrimSpace line) as [|b t] eqn:Et.
    + rewrite IH. split.
      * intros [l [Hin H]]. exists l. split; [now right | exact H].
      * intros [l [[<- | Hin] [Hne H]]]; [congruence|].
        exists l. auto.
    + destruct (Unmarshal line) as [items|] eqn:Eu.
      * rewrite IH. split.
        -- intros [l [Hin H]]. exists l. split; [now right | exact H].
        -- intros [l [[<- | Hin] [Hne H]]]; [congruence|].
           exists l. auto.
      * split; [|reflexivity]. intros _. exists line.
        split; [now left|]. split; [rewrite Et; discriminate | exact Eu].
Qed.

(** X12: the process ends in [readFile] exactly when the file cannot be
    read or one of its lines, wherever it stands, is not blank and does not
    decode; blank lines never end it. *)
Theorem readFile_exits_iff
    (Unmarshal : gostring -> option (gomap QuestionItem.t))
    (content : option gostring) :
  readFile Unmarshal content = Exited
  <-> content = None
      \/ exists text line,
           content = Some text
           /\ In line (Split text [x0a])
           /\ TrimSpace line <> []
           /\ Unmarshal line = None.
Proof.
  unfold readFile. destruct content as [text|].
  - rewrite readLines_Exited. split.
    + intros [line H]. right. now exists text, line.
    + intros [H | [t [line [[= <-] H]]]]; [discriminate|]. now exists line.
  - split; [now left | reflexivity].
Qed.

Lemma lookup_perm {V : Type} (u : gostring) (a b : gomap V) :
  Permutation a b -> NoDup (map fst a) -> lookup u a = lookup u b.
Proof.
  intros Hp Hnd.
  assert (Hnd' : NoDup (map fst b))
    by (eapply Permutation_NoDup; [apply Permutation_map; exact Hp | exact Hnd]).
  destruct (lookup u a) as [v|] eqn:Ea.
  - apply lookup_In in Ea. symmetry. apply In_lookup; [exact Hnd'|].
    eapply Permutation_in; eauto.
  - destruct (lookup u b) as [v|] eqn:Eb; [|reflexivity].
    apply lookup_In in Eb.
    assert (Hin : In (u, v) a)
      by (eapply Permutation_in; [apply Permutation_sym; exact Hp | exact Eb]).
    apply (In_lookup u v a Hnd) in Hin. congruence.
Qed.

Lemma readLines_sameEntries
    (U U' : gostring -> option (gomap QuestionItem.t))
    (lines : list gostring) (a b : gomap QuestionItem.t) :
  sameEntries U U' ->
  (forall u, lookup u a = lookup u b) ->
  match readLines U lines a, readLines U' lines b with
  | Loaded x, Loaded y => forall u, lookup u x = lookup u y
  | Exited, Exited => True
  | _, _ => False
  end.
Proof.
  intros Hsame. revert a b.
  induction lines as [|line rest IH]; intros a b Hab; simpl.
  - exact Hab.
  - destruct (TrimSpace line); [now apply IH|].
    specialize (Hsame line).
    destruct (U line) as [x|], (U' line) as [y|]; try contradiction; auto.
    destruct Hsame as [Hp Hnd]. apply IH. intros u.
    rewrite !mergeLine_lookup, Hab, (lookup_perm u x y Hp Hnd).
    reflexivity.
Qed.

(** X13: the order in which the entries of a line are visited does not
    show in the loaded map: two decoders that differ only in that order
    end the process on the same files, and load maps that hold the same
    item under every uuid. *)
Theorem readFile_visit_order
    (U U' : gostring -> option (gomap QuestionItem.t))
    (content : option gostring) :
  sameEntries U U' ->
  match readFile U content, readFile U' content with
  | Loaded a, Loaded b => forall uuid, lookup uuid a = lookup uuid b
  | Exited, Exited => True
  | _, _ => False
  end.
Proof.
  intros Hsame. unfold readFile. destruct content as [text|]; [|exact I].
  now apply readLines_sameEntries.
Qed.

Lemma Split_newline_end (cur s : gostring) :
  splitFrom [x0a] 0 cur (s ++ [x0a]) = splitFrom [x0a] 0 cur s ++ [[]].
Proof.
  revert cur; induction s as [|b s IH]; intros cur.
  - reflexivity.
  - cbn [app splitFrom].
    assert (Hp : HasPrefix (b :: s ++ [x0a]) [x0a] = HasPrefix (b :: s) [x0a])
      by (now rewrite !HasPrefix_cons, !HasPrefix_nil).
    rewrite Hp. destruct (HasPrefix (b :: s) [x0a]).
    + cbn [length Nat.sub]. rewrite IH. reflexivity.
    + apply IH.
Qed.

Lemma readLines_app (U : gostring -> option (gomap QuestionItem.t))
    (l l' : list gostring) (a : gomap QuestionItem.t) :
  readLines U (l ++ l') a
  = match readLines U l a with
    | Loaded x => readLines U l' x
    | Exited => Exited
    end.
Proof.
  revert a; induction l as [|line l IH]; intros a; simpl; [reflexivity|].
  destruct (TrimSpace line); [apply IH|].
  destruct (U line); [apply IH | reflexivity].
Qed.

(** X14: a newline at the end of the file is harmless: the empty last line
    it makes is skipped, not decoded. *)
Theorem readFile_trailing_newline
    (Unmarshal : gostring -> option (gomap QuestionItem.t))
    (content : gostring) :
  readFile Unmarshal (Some (content ++ [x0a]))
  = readFile Unmarshal (Some content).
Proof.
  unfold readFile, Split. rewrite Split_newline_end, readLines_app.
  now destruct (readLines Unmarshal (splitFrom [x0a] 0 [] content) []).
Qed.

(** ** Further properties of the text normalizer *)

Lemma subsequence_refl {A : Type} (l : list A) : subsequence l l.
Proof. induction l; constructor; auto. Qed.

Lemma subsequence_nil {A : Type} (l : list A) : subsequence [] l.
Proof. induction l; constructor; auto. Qed.

Lemma subsequence_trans {A : Type} (a b c : list A) :
  subsequence a b -> subsequence b c -> subsequence a c.
Proof.
  intros Hab Hbc. revert a Hab.
  induction Hbc as [|x b c Hbc IH|x b c Hbc IH]; intros a Hab.
  - exact Hab.
  - inversion Hab; subst.
    + constructor. now apply IH.
    + apply sub_drop. now apply IH.
  - apply sub_drop. now apply IH.
Qed.

Lemma subsequence_suffix {A : Type} (pre l : list A) :
  subsequence l (pre ++ l).
Proof.
  induction pre; simpl; [apply subsequence_refl | now apply sub_drop].
Qed.

Lemma subsequence_prefix {A : Type} (l post : list A) :
  subsequence l (l ++ post).
Proof.
  induction l; simpl; [apply subsequence_nil | now apply sub_keep].
Qed.

Lemma subsequence_length {A : Type} (a b : list A) :
  subsequence a b -> length a <= length b.
Proof. induction 1; simpl; lia. Qed.

Lemma replaceFrom_subsequence (old s : gostring) (skip : nat) :
  subsequence (replaceFrom old [] skip s) s.
Proof.
  revert skip; induction s as [|b s IH]; intros skip; simpl.
  - constructor.
  - destruct skip as [|k]; [|apply sub_drop, IH].
    destruct (HasPrefix (b :: s) old); simpl.
    + apply sub_drop, IH.
    + apply sub_keep, IH.
Qed.

Lemma removeAll_subsequence (pats : list gostring) (t : gostring) :
  subsequence (fold_left (fun t p => ReplaceAll t p []) pats t) t.
Proof.
  revert t; induction pats as [|p pats IH]; intros t; simpl.
  - apply subsequence_refl.
  - eapply subsequence_trans; [apply IH|]. apply replaceFrom_subsequence.
Qed.

Lemma TrimSpace_subsequence (s : gostring) : subsequence (TrimSpace s) s.
Proof.
  unfold TrimSpace.
  destruct (TrimRight_prefix (TrimLeft s)) as [post Hpost].
  destruct (stripAll_suffix spaceEncodings (length s) s) as [pre Hpre].
  fold (TrimLeft s) in Hpre.
  apply subsequence_trans with (TrimLeft s).
  - pose proof (subsequence_prefix (TrimRight (TrimLeft s)) post) as H.
    now rewrite <- Hpost in H.
  - pose proof (subsequence_suffix pre (TrimLeft s)) as H.
    now rewrite <- Hpre in H.
Qed.

(** X15: the normalizer only deletes.  What it returns is what is left of
    its argument once some bytes are deleted, none changed or added, and it
    has no white space at either end. *)
Theorem cleanText_only_deletes (text : gostring) :
  subsequence (cleanText text) text
  /\ TrimSpace (cleanText text) = cleanText text.
Proof.
  rewrite cleanText_fold. split.
  - eapply subsequence_trans; [apply TrimSpace_subsequence|].
    apply removeAll_subsequence.
  - apply TrimSpace_idem.
Qed.

(** X16: the texts the normalizer leaves as they are are those in which
    none of the seven noise substrings occurs and which have no white space
    at either end. *)
Theorem cleanText_fixed_iff (text : gostring) :
  cleanText text = text
  <-> (forall p, In p noise -> Contains text p = false)
      /\ TrimSpace text = text.
Proof.
  split.
  - intros Hfix.
    assert (Habs : forall p, In p noise -> Contains text p = false).
    { intros p Hp. destruct (Contains text p) eqn:E; [|reflexivity].
      exfalso.
      pose proof (removeAll_shrinks noise text noise_nonempty
                    (ex_intro _ p (conj Hp E))) as Hlt.
      pose proof (TrimSpace_length
                    (fold_left (fun t p => ReplaceAll t p []) noise text))
        as Hle.
      rewrite <- cleanText_fold, Hfix in Hle. lia. }
    split; [exact Habs|].
    rewrite cleanText_fold, (removeAll_absent noise text Habs) in Hfix.
    exact Hfix.
  - intros [Habs Htrim].
    now rewrite cleanText_fold, (removeAll_absent noise text Habs).
Qed.

(** ** The further properties on the examples *)

Lemma goDecimal_contract : SortContract goDecimal.
Proof.
  split; intros; simpl.
  - apply insertionSort_perm.
  - now apply insertionSort_sorted.
Qed.

Lemma exampleDecoders_same : sameEntries exampleDecoder exampleDecoder'.
Proof.
  intros line. unfold exampleDecoder, exampleDecoder', decodeWith.
  cbn [lookup].
  destruct (eqb (go "first") line).
  - split; [apply Permutation_refl|].
    simpl. constructor; [intros [] | constructor].
  - destruct (eqb (go "second") line); [|exact I].
    split; [apply perm_swap|].
    simpl. constructor; [intros [H | []]; discriminate|].
    constructor; [intros [] | constructor].
Qed.

(** The theorem of X4 at two keywords of the same four words. *)
Lemma token_tier_word_order_witness :
  @calculateRelevance goSmall (go "d c b a") (go "a b c d")
  = @calculateRelevance goSmall (go "d c b a") (go "b a c d").
Proof.
  apply (@token_tier_word_order goSmall).
  - discriminate.
  - discriminate.
  - vm_compute; reflexivity.
  - vm_compute; reflexivity.
  - vm_compute. apply perm_swap.
Defined.


(** The theorem of X7 at scenario A. *)
Lemma display_title_witness :
  let score :=
    @calculateRelevance goSmall (displayTitle (go "计算机网络基础概念"))
      (go "计算机网络") in
  score = 0.9%Q \/ score = 0.8%Q
  \/ Contains (lowerASCII (displayTitle (go "计算机网络基础概念")))
       (lowerASCII (go "计算机网络")) = false.
Proof.
  refine (proj1 (@display_title_never_exact_or_prefix goSmall
                   lowerASCII_leading_space lowerASCII_nil
                   (go "计算机网络基础概念") (go "计算机网络") _ _)).
  - discriminate.
  - vm_compute; reflexivity.
Defined.

(** The theorem of X8 at a search of scenario C. *)
Lemma search_page_witness :
  exists data,
    @handleSearch goDecimal exampleSite
      (searchRequest (go " 操作系统 ") (go "single_choice"))
    = Page data None
    /\ TemplateData.ResultCount data = 2%Z
    /\ TemplateData.ResultCount data
       = Z.of_nat (length (TemplateData.Results data)).
Proof.
  eexists. split; [vm_compute; reflexivity|]. split; [reflexivity|].
  refine (proj1 (proj2 (proj2 (proj2
            (@search_page_shows_search goDecimal exampleSite
               (searchRequest (go " 操作系统 ") (go "single_choice"))
               _ None _ _))))).
  - vm_compute; reflexivity.
  - reflexivity.
Defined.

(** The theorem of X10 at a keyword of three spaces. *)
Lemma blank_keyword_witness :
  exists data,
    @handleSearch goDecimal exampleSite
      (searchRequest (go "   ") (go "single_choice"))
    = Page data None
    /\ TemplateData.Keyword data = []
    /\ length (TemplateData.Results data) = 3.
Proof.
  eexists. split; [vm_compute; reflexivity|]. split; [|reflexivity].
  refine (proj1 (@blank_keyword_lists_category goDecimal goDecimal_contract
                   exampleSite
                   (searchRequest (go "   ") (go "single_choice"))
                   _ None _ _ _)).
  - vm_compute; reflexivity.
  - vm_compute; reflexivity.
  - reflexivity.
Defined.

(** The theorem of X11 at the file of two lines: the first title of q1
    stays. *)
Lemma readFile_first_write_witness :
  exists allQuestions,
    readFile exampleDecoder (Some exampleFile) = Loaded allQuestions
    /\ NoDup (map fst allQuestions)
    /\ option_map QuestionItem.Title (lookup (go "q1") allQuestions)
       = Some (go "ab").
Proof.
  eexists. split; [vm_compute; reflexivity|].
  destruct (readFile_first_write_wins exampleDecoder exampleFile _
              ltac:(vm_compute; reflexivity)) as [Hk Hl].
  split; [exact Hk|]. rewrite Hl. vm_compute. reflexivity.
Defined.

(** The theorem of X13 at the two decoders of the file of two lines. *)
Lemma readFile_visit_order_witness :
  exists a b,
    readFile exampleDecoder (Some exampleFile) = Loaded a
    /\ readFile exampleDecoder' (Some exampleFile) = Loaded b
    /\ lookup (go "q2") a = lookup (go "q2") b.
Proof.
  eexists. eexists. split; [vm_compute; reflexivity|].
  split; [vm_compute; reflexivity|].
  exact (readFile_visit_order exampleDecoder exampleDecoder'
           (Some exampleFile) exampleDecoders_same (go "q2")).
Defined.
